(** * BIP-0039 mnemonics of bitcoinlib: a shallow embedding of
      [bitcoinlib/mnemonic.py] and the properties of its specification.

    The Python class [Mnemonic] is embedded function by function.  Python
    [bytes] are [list byte], Python [str] is [string] (its UTF-8 bytes), a
    bit string (a [str] over ['0'] and ['1']) and a list of word indices are
    lists of digits ([list N]), Python integers are [Z], and a raised
    exception is the [Raise] branch of [result]. *)

From Stdlib Require Import String Ascii List NArith ZArith Bool Lia.
From Stdlib.Strings Require Import Byte.
Import ListNotations.

Set Implicit Arguments.

(** ** Exceptions and the error monad *)

(** The exceptions the module can raise, one constructor per raise site
    (line numbers of mnemonic.py) or per built-in that raises. *)
Inductive exn : Type :=
| ValueError_data_length (nbytes : nat)            (* checksum, line 67 *)
| ValueError_strength                              (* generate, line 127 *)
| ValueError_not_in_list (w : string)              (* list.index, line 166 *)
| ValueError_negative_argument                     (* os.urandom of a negative count *)
| OverflowError                                    (* os.urandom of a count beyond ssize_t *)
| ValueError_max_empty                             (* max() of no keys, line 205 *)
| Warning_invalid_checksum (checksum : list N) (ent : list byte)  (* line 175 *)
| Warning_language (words : list string)           (* line 207 *)
| Warning_unrecognised_word (w : string)           (* line 231 *)
| IndexError                                       (* list index out of range *)
| IOError (language : string).                     (* open() of a missing file *)



Inductive result (A : Type) : Type :=
| Ok (a : A)
| Raise (e : exn).
Arguments Ok {A} a.
Arguments Raise {A} e.

Definition bind {A B : Type} (r : result A) (k : A -> result B) : result B :=
  match r with
  | Ok a => k a
  | Raise e => Raise e
  end.

Notation "x <- r ;; k" := (bind r (fun x => k))
  (at level 61, r at next level, right associativity).

(** [for x in xs: ys.append(f(x))] with a body that may raise. *)
Fixpoint mapM {A B : Type} (f : A -> result B) (xs : list A) : result (list B) :=
  match xs with
  | [] => Ok []
  | x :: xs' => y <- f x ;; ys <- mapM f xs' ;; Ok (y :: ys)
  end.

(** ** Python sequences *)

Section PySeq.
Context {A : Type}.

(** [l[i]], negative indices counting from the end. *)
Definition py_getitem (l : list A) (i : Z) : result A :=
  let n := Z.of_nat (length l) in
  let j := if (i <? 0)%Z then (n + i)%Z else i in
  if ((0 <=? j) && (j <? n))%Z%bool then
    match nth_error l (Z.to_nat j) with
    | Some x => Ok x
    | None => Raise IndexError
    end
  else Raise IndexError.

(** The position a slice bound [j] denotes in a sequence of length [n]. *)
Definition py_bound (n : nat) (j : Z) : nat :=
  if (j <? 0)%Z then Z.to_nat (Z.of_nat n + j) else Nat.min n (Z.to_nat j).

(** [l[:j]] *)
Definition py_slice_to (l : list A) (j : Z) : list A :=
  firstn (py_bound (length l) j) l.

(** [l[j:]] *)
Definition py_slice_from (l : list A) (j : Z) : list A :=
  skipn (py_bound (length l) j) l.
End PySeq.

(** [w in wordlist] *)
Definition py_in (w : string) (l : list string) : bool :=
  existsb (String.eqb w) l.

(** [l.index(w)]: the first position of [w], ValueError when absent. *)
Fixpoint py_index_from (w : string) (l : list string) (i : N) : result N :=
  match l with
  | [] => Raise (ValueError_not_in_list w)
  | x :: l' => if String.eqb x w then Ok i else py_index_from w l' (i + 1)
  end.

Definition py_index (l : list string) (w : string) : result N :=
  py_index_from w l 0.

(** [s.split(' ')]: every single space separates; [''.split(' ') = ['']]. *)
Fixpoint split_space_aux (cur : string -> string) (s : string) : list string :=
  match s with
  | EmptyString => [cur EmptyString]
  | String c s' =>
      if Ascii.eqb c " "%char
      then cur EmptyString :: split_space_aux (fun t => t) s'
      else split_space_aux (fun t => cur (String c t)) s'
  end.

Definition split_space (s : string) : list string :=
  split_space_aux (fun t => t) s.

(** [' '.join(words)] *)
Fixpoint join_space (ws : list string) : string :=
  match ws with
  | [] => EmptyString
  | [w] => w
  | w :: ws' => (w ++ String " "%char (join_space ws'))%string
  end.

(** ** Bytes and digits *)

Definition bytes := list byte.

(** The value of a byte, and the byte of a value below 256. *)
Definition byte_of_N (n : N) : byte :=
  match Byte.of_N (n mod 256) with
  | Some b => b
  | None => x00
  end.

Definition bytes_to_digits (bs : bytes) : list N := map Byte.to_N bs.
Definition digits_to_bytes (ds : list N) : bytes := map byte_of_N ds.

(** ** The base converter *)

(** Modelled from the spec: the number a digit sequence denotes, most
    significant digit first; part of [change_base] below. *)
Definition digits_value (base : N) (ds : list N) : N :=
  fold_left (fun acc d => (acc * base + d)%N) ds 0%N.

(** Modelled from the spec: the digits of a number in a base, by repeated
    division; part of [change_base] below.  The number of bits of [n] is
    fuel enough for every base from 2 on. *)
Fixpoint number_digits_aux (fuel : nat) (base n : N) (acc : list N) : list N :=
  match fuel with
  | O => acc
  | S fuel' =>
      if (n =? 0)%N then acc
      else number_digits_aux fuel' base (n / base)%N ((n mod base)%N :: acc)
  end.

Definition number_digits (base n : N) : list N :=
  number_digits_aux (N.to_nat (N.size n)) base n [].

(** Modelled from the spec: leading zero digits up to a minimum length;
    part of [change_base] below. *)
Definition pad_left (min_length : nat) (ds : list N) : list N :=
  repeat 0%N (min_length - length ds) ++ ds.

(** Modelled from the spec: [change_base] of [bitcoinlib.encoding], which is
    not among the sources.  The specification describes it as "arbitrary-base
    big-number re-basing": it "re-expresses a sequence of digits in one
    numeric base as a sequence of digits in another base".  The input digits
    are read as one number and the number is written out in the target base;
    a number has no leading zero digits, so the result is as long as the
    number needs.  The fourth positional argument of the calls in
    mnemonic.py is a minimum length, reached by adding leading zero digits;
    [output_even] adds one leading zero digit when the number of digits is
    odd.  Bit strings, bytes and index lists are all digit sequences here:
    a bit string has the digits 0 and 1, bytes have their values.  What the
    helper does with leading zero digits of its input and with the number
    zero the specification does not say: the theorems that go through
    [change_base] are stated for inputs without leading zero digits, or
    about the number alone. *)
Definition change_base (chars : list N) (base_from base_to : N)
    (min_length : nat) (output_even : bool) : list N :=
  let input_dec := digits_value base_from chars in
  let output := number_digits base_to input_dec in
  let output :=
    if (output_even && Nat.odd (length output))%bool then 0%N :: output
    else output in
  pad_left min_length output.

(** The value of an ASCII hexadecimal digit, of either case. *)
Definition hex_value (b : byte) : option N :=
  let n := Byte.to_N b in
  if ((48 <=? n) && (n <=? 57))%N then Some (n - 48)%N
  else if ((97 <=? n) && (n <=? 102))%N then Some (n - 87)%N
  else if ((65 <=? n) && (n <=? 70))%N then Some (n - 55)%N
  else None.

(** [binascii.unhexlify]: the bytes that an even number of hexadecimal
    digits spell; [None] stands for its error on an odd length or on a byte
    that is not a hexadecimal digit. *)
Fixpoint unhexlify (data : bytes) : option bytes :=
  match data with
  | [] => Some []
  | [_] => None
  | a :: b :: rest =>
      match hex_value a, hex_value b, unhexlify rest with
      | Some x, Some y, Some r => Some (byte_of_N (16 * x + y) :: r)
      | _, _, _ => None
      end
  end.

(** Modelled from the spec: [to_bytes] of [bitcoinlib.encoding], not among
    the sources.  The specification passes entropy as bytes; the docstrings
    of mnemonic.py give the type of the data as "bytes, hexstring", and its
    examples pass the hexadecimal text of an entropy to [to_mnemonic] and
    [checksum].  Data that is a hexadecimal text is therefore read as the
    bytes it spells, and any other data is left as it is. *)
Definition to_bytes (data : bytes) : bytes :=
  match unhexlify data with
  | Some d => d
  | None => data
  end.

(** ** hashlib: the SHA-2 hash functions (FIPS 180-4)

    [hashlib.sha256] and [hashlib.sha512] are the same construction at two
    word sizes; words are numbers below [2^w]. *)

Section SHA2.
Variable w : N.                    (* bits per word: 32 or 64 *)
Variable K : list N.               (* round constants *)
Variable H0 : list N.              (* initial hash value *)
Variables S0 S1 s0 s1 : N * N * N. (* rotation and shift amounts *)

Definition trunc (x : N) : N := N.land x (N.ones w).
Definition wadd (x y : N) : N := trunc (x + y).
Definition rotr (n x : N) : N :=
  N.lor (N.shiftr x n) (trunc (N.shiftl x (w - n))).

Definition Ch (x y z : N) : N :=
  N.lxor (N.land x y) (N.land (N.lnot x w) z).
Definition Maj (x y z : N) : N :=
  N.lxor (N.land x y) (N.lxor (N.land x z) (N.land y z)).
Definition big_sigma (r : N * N * N) (x : N) : N :=
  let '(a, b, c) := r in N.lxor (rotr a x) (N.lxor (rotr b x) (rotr c x)).
Definition small_sigma (r : N * N * N) (x : N) : N :=
  let '(a, b, c) := r in N.lxor (rotr a x) (N.lxor (rotr b x) (N.shiftr x c)).

Definition wbytes : nat := N.to_nat (w / 8).

(** Big-endian words. *)
Definition word_of_bytes (bs : bytes) : N :=
  fold_left (fun acc b => (acc * 256 + Byte.to_N b)%N) bs 0%N.
Definition bytes_of_word (n : nat) (x : N) : bytes :=
  map (fun i => byte_of_N (N.shiftr x (8 * N.of_nat i))) (rev (seq 0 n)).

Fixpoint chunks {A : Type} (fuel n : nat) (l : list A) : list (list A) :=
  match fuel, l with
  | O, _ | _, [] => []
  | S fuel', _ => firstn n l :: chunks fuel' n (skipn n l)
  end.

(** The message, a one bit, zero bits up to the length field, the length
    in bits. *)
Definition pad_message (msg : bytes) : bytes :=
  let block := 16 * wbytes in
  let lenfield := 2 * wbytes in
  let used := (length msg + 1 + lenfield) mod block in
  let zeros := if Nat.eqb used 0 then 0 else block - used in
  msg ++ x80 :: repeat x00 zeros
      ++ bytes_of_word lenfield (8 * N.of_nat (length msg)).

(** The message schedule, built up to [length K] words. *)
Fixpoint schedule (n : nat) (W : list N) : list N :=
  match n with
  | O => W
  | S n' =>
      let t := length W in
      let at_ i := nth (t - i) W 0%N in
      schedule n'
        (W ++ [wadd (wadd (small_sigma s1 (at_ 2)) (at_ 7))
                    (wadd (small_sigma s0 (at_ 15)) (at_ 16))])
  end.

Record state : Type :=
  State { va : N; vb : N; vc : N; vd : N; ve : N; vf : N; vg : N; vh : N }.

Definition state_of (l : list N) : state :=
  State (nth 0 l 0%N) (nth 1 l 0%N) (nth 2 l 0%N) (nth 3 l 0%N)
        (nth 4 l 0%N) (nth 5 l 0%N) (nth 6 l 0%N) (nth 7 l 0%N).

Definition round (s : state) (kw : N * N) : state :=
  let '(k, wt) := kw in
  let T1 := wadd (wadd (wadd (vh s) (big_sigma S1 (ve s)))
                       (wadd (Ch (ve s) (vf s) (vg s)) k)) wt in
  let T2 := wadd (big_sigma S0 (va s)) (Maj (va s) (vb s) (vc s)) in
  State (wadd T1 T2) (va s) (vb s) (vc s) (wadd (vd s) T1) (ve s) (vf s) (vg s).

Definition compress (h : state) (block : bytes) : state :=
  let W := schedule (length K - 16) (map word_of_bytes (chunks 16 wbytes block)) in
  let s := fold_left round (combine K W) h in
  State (wadd (va h) (va s)) (wadd (vb h) (vb s)) (wadd (vc h) (vc s))
        (wadd (vd h) (vd s)) (wadd (ve h) (ve s)) (wadd (vf h) (vf s))
        (wadd (vg h) (vg s)) (wadd (vh h) (vh s)).

Definition state_bytes (s : state) : bytes :=
  flat_map (bytes_of_word wbytes)
    [va s; vb s; vc s; vd s; ve s; vf s; vg s; vh s].

Definition sha2 (msg : bytes) : bytes :=
  let padded := pad_message msg in
  state_bytes
    (fold_left compress (chunks (length padded) (16 * wbytes) padded)
       (state_of H0)).
End SHA2.

(** The constants of FIPS 180-4 are fractional parts of roots of the first
    primes: the first [w] bits of the cube roots of the first primes are the
    round constants, those of the square roots of the first eight primes the
    initial hash value. *)
Definition is_prime (p : N) : bool :=
  forallb (fun d => negb (p mod N.of_nat d =? 0)%N) (seq 2 (N.to_nat p - 2)).

Definition first_primes (n : nat) : list N :=
  firstn n (filter is_prime (map N.of_nat (seq 2 420))).

(** The largest [r] below [2^bits] with [r^k <= x], one bit at a time. *)
Fixpoint int_root (k : N) (bits : nat) (x r : N) : N :=
  match bits with
  | O => r
  | S bits' =>
      let r' := (r + 2 ^ N.of_nat bits')%N in
      if (r' ^ k <=? x)%N then int_root k bits' x r' else int_root k bits' x r
  end.

Definition root_fraction (k w p : N) : N :=
  (int_root k (N.to_nat w + 8) (p * 2 ^ (k * w)) 0 mod 2 ^ w)%N.

Definition K256 : list N := Eval vm_compute in map (root_fraction 3 32) (first_primes 64).
Definition H256 : list N := Eval vm_compute in map (root_fraction 2 32) (first_primes 8).
Definition K512 : list N := Eval vm_compute in map (root_fraction 3 64) (first_primes 80).
Definition H512 : list N := Eval vm_compute in map (root_fraction 2 64) (first_primes 8).

(** [hashlib.sha256(data).digest()] *)
Definition sha256 : bytes -> bytes :=
  sha2 32 K256 H256 (2, 13, 22)%N (6, 11, 25)%N (7, 18, 3)%N (17, 19, 10)%N.

(** [hashlib.sha512(data).digest()] *)
Definition sha512 : bytes -> bytes :=
  sha2 64 K512 H512 (28, 34, 39)%N (14, 18, 41)%N (1, 8, 7)%N (19, 61, 6)%N.

(** Bytes written as hexadecimal, for test vectors. *)
Definition hex_digit (n : N) : ascii :=
  if (n <? 10)%N then ascii_of_N (48 + n) else ascii_of_N (87 + n).

Fixpoint hex (bs : bytes) : string :=
  match bs with
  | [] => EmptyString
  | b :: bs' =>
      String (hex_digit (Byte.to_N b / 16)) (String (hex_digit (Byte.to_N b mod 16)) (hex bs'))
  end.

Definition bytes_of_string (s : string) : bytes := list_byte_of_string s.

(** ** hmac and the pbkdf2 package

    [PBKDF2(passphrase, salt, iterations, macmodule=hmac, digestmodule=d)]
    is a stream of blocks [f 1, f 2, ...]; [read n] takes blocks until [n]
    bytes are there and returns the first [n] (RFC 2104, RFC 2898). *)

Definition xor_bytes (a b : bytes) : bytes :=
  map (fun xy => byte_of_N (N.lxor (Byte.to_N (fst xy)) (Byte.to_N (snd xy))))
      (combine a b).

Section PBKDF2.
Variable digest : bytes -> bytes.
Variable block_size : nat.         (* the digest's input block, in bytes *)

Definition hmac (key msg : bytes) : bytes :=
  let key := if block_size <? length key then digest key else key in
  let key := key ++ repeat x00 (block_size - length key) in
  let ipad := xor_bytes key (repeat x36 block_size) in
  let opad := xor_bytes key (repeat x5c block_size) in
  digest (opad ++ digest (ipad ++ msg)).

(** [struct.pack("!L", i)] *)
Definition pack_L (i : N) : bytes :=
  map (fun k => byte_of_N (N.shiftr i (8 * N.of_nat k))) [3; 2; 1; 0].

(** [for j in range(2, 1 + iterations): U = prf(passphrase, U); result ^= U] *)
Fixpoint PBKDF2_rounds (n : nat) (passphrase U result : bytes) : bytes :=
  match n with
  | O => result
  | S n' =>
      let U' := hmac passphrase U in
      PBKDF2_rounds n' passphrase U' (xor_bytes result U')
  end.

Definition PBKDF2_f (passphrase salt : bytes) (iterations : nat) (i : N) : bytes :=
  let U := hmac passphrase (salt ++ pack_L i) in
  PBKDF2_rounds (iterations - 1) passphrase U U.

(** [while size < n: i += 1; blocks.append(f(i))]; the loop runs at most
    [n] times when every block has a byte, which is the fuel. *)
Fixpoint PBKDF2_blocks (fuel : nat) (passphrase salt : bytes) (iterations : nat)
    (i : N) (buf : bytes) (n : nat) : bytes :=
  match fuel with
  | O => buf
  | S fuel' =>
      if length buf <? n
      then PBKDF2_blocks fuel' passphrase salt iterations (i + 1)
             (buf ++ PBKDF2_f passphrase salt iterations (i + 1)) n
      else buf
  end.

(** [PBKDF2(passphrase, salt, iterations, ...).read(n)] on a new object. *)
Definition PBKDF2_read (passphrase salt : bytes) (iterations n : nat) : bytes :=
  firstn n (PBKDF2_blocks n passphrase salt iterations 0 [] n).
End PBKDF2.

(** ** Python dicts with integer values, in insertion order *)

Definition dict := list (string * nat).

(** [d[k] = v]: an existing key keeps its place. *)
Fixpoint dict_set (d : dict) (k : string) (v : nat) : dict :=
  match d with
  | [] => [(k, v)]
  | (k', v') :: d' =>
      if String.eqb k' k then (k', v) :: d' else (k', v') :: dict_set d' k v
  end.

(** [d[k]] for a key of [d]. *)
Fixpoint dict_get (d : dict) (k : string) : nat :=
  match d with
  | [] => 0
  | (k', v') :: d' => if String.eqb k' k then v' else dict_get d' k
  end.

(** [max(d.keys(), key=lambda key: d[key])]: the first key whose value no
    later key exceeds; ValueError on an empty dict. *)
Fixpoint max_from (d : dict) (best : string * nat) : string :=
  match d with
  | [] => fst best
  | (k, v) :: d' => if snd best <? v then max_from d' (k, v) else max_from d' best
  end.

Definition py_max_key (d : dict) : result string :=
  match d with
  | [] => Raise ValueError_max_empty
  | kv :: d' => Ok (max_from d' kv)
  end.

Fixpoint digits_eqb (a b : list N) : bool :=
  match a, b with
  | [], [] => true
  | x :: a', y :: b' => (x =? y)%N && digits_eqb a' b'
  | _, _ => false
  end.

(** ** The class Mnemonic *)

Section MnemonicClass.
(** Modelled from the spec: [normalize_string] of [bitcoinlib.encoding],
    not among the sources; the specification takes "Unicode NFKD
    normalization" as a given primitive, and so does this section. *)
Variable normalize_string : string -> string.

(** The wordlist directory: for every file [<language>.txt], in the order
    [os.listdir] gives them, the language and the stripped lines of the
    file. *)
Variable WORDLIST_DIR : list (string * list string).

(** The bytes [os.urandom] hands out, in order; the state of the random
    source is the number of bytes taken so far. *)
Variable entropy_tape : nat -> byte.

Definition PBKDF2_ROUNDS : nat := 2048.

(** [sys.maxsize], the largest ssize_t, of a 64-bit platform. *)
Definition PY_SSIZE_T_MAX : Z := 2 ^ 63 - 1.
Definition DEFAULT_LANGUAGE : string := "english".

(** [with open('%s/%s.txt' % (WORDLIST_DIR, language), 'r') as f:
     [w.strip() for w in f.readlines()]] *)
Definition read_wordlist (language : string) : result (list string) :=
  match find (fun e => String.eqb (fst e) language) WORDLIST_DIR with
  | Some e => Ok (snd e)
  | None => Raise (IOError language)
  end.

Record Mnemonic : Type := { _wordlist : list string }.

(** [Mnemonic(language)] *)
Definition init (language : string) : result Mnemonic :=
  wl <- read_wordlist language ;; Ok {| _wordlist := wl |}.

Definition checksum (data : bytes) : result (list N) :=
  let data := to_bytes data in
  if 0 <? length data mod 4
  then Raise (ValueError_data_length (length data))
  else
    let hash := sha256 data in
    Ok (py_slice_to (change_base (bytes_to_digits hash) 256 2 256 false)
                    (Z.of_nat (length data) * 8 / 32)).

(** [os.urandom(n)]: a negative count is a ValueError, a count that does
    not fit the ssize_t of the platform an OverflowError.  Running out of
    memory for the bytes is not modelled. *)
Definition os_urandom (n : Z) (taken : nat) : result bytes * nat :=
  if (n <? 0)%Z then (Raise ValueError_negative_argument, taken)
  else if (PY_SSIZE_T_MAX <? n)%Z then (Raise OverflowError, taken)
  else (Ok (map entropy_tape (seq taken (Z.to_nat n))), taken + Z.to_nat n).

(** [for word in words: if word in wordlist: wlcount[language] += 1] *)
Definition count_members (wordlist words : list string) : nat :=
  fold_left (fun c word => if py_in word wordlist then c + 1 else c) words 0.

Definition detect_language (words : string) : result string :=
  let words := normalize_string words in
  let words := split_space words in
  let wlcount :=
    fold_left
      (fun wlcount (fn : string * list string) =>
         let (language, wordlist) := fn in
         dict_set wlcount language (count_members wordlist words))
      WORDLIST_DIR [] in
  detlang <- py_max_key wlcount ;;
  if Nat.eqb (dict_get wlcount detlang) 0
  then Raise (Warning_language words)
  else Ok detlang.

(** [for word in words: if word not in wordlist: raise Warning(...)] *)
Fixpoint check_words (wordlist words : list string) : result unit :=
  match words with
  | [] => Ok tt
  | word :: words' =>
      if py_in word wordlist then check_words wordlist words'
      else Raise (Warning_unrecognised_word word)
  end.

Definition sanitize_mnemonic (self : Mnemonic) (words : string) : result string :=
  let words := normalize_string words in
  language <- detect_language words ;;
  let words := split_space words in
  wordlist <- read_wordlist language ;;
  _ <- check_words wordlist words ;;
  Ok (join_space words).

Definition to_seed (self : Mnemonic) (words passphrase : string) : result bytes :=
  words <- sanitize_mnemonic self words ;;
  let mnemonic := normalize_string words in
  let passphrase := bytes_of_string passphrase in
  Ok (PBKDF2_read sha512 128 (bytes_of_string mnemonic)
        (bytes_of_string "mnemonic" ++ passphrase) PBKDF2_ROUNDS 64).

Definition word (self : Mnemonic) (index : Z) : result string :=
  py_getitem (_wordlist self) index.

Definition wordlist (self : Mnemonic) : list string := _wordlist self.

Definition to_mnemonic (self : Mnemonic) (data : bytes) (add_checksum : bool)
    : result string :=
  let data := to_bytes data in
  wi <- (if add_checksum then
           cs <- checksum data ;;
           let binresult :=
             change_base (bytes_to_digits data) 256 2 (length data * 8) false ++ cs in
           Ok (change_base binresult 2 2048 0 false)
         else Ok (change_base (bytes_to_digits data) 256 2048 0 false)) ;;
  ws <- mapM (fun i => py_getitem (_wordlist self) (Z.of_N i)) wi ;;
  Ok (normalize_string (join_space ws)).

Definition generate (self : Mnemonic) (strength : Z) (add_checksum : bool)
    (taken : nat) : result string * nat :=
  if (0 <? strength mod 32)%Z then (Raise ValueError_strength, taken)
  else
    let (data, taken') := os_urandom (strength / 8) taken in
    (data <- data ;; to_mnemonic self data add_checksum, taken').

(** Lines 167 to 177 of [to_entropy]: from the word indices to the
    entropy. *)
Definition entropy_of_indices (wi : list N) (includes_checksum : bool)
    : result bytes :=
  let ent := digits_to_bytes (change_base wi 2048 256 0 false) in
  if includes_checksum then
    let binresult := change_base (bytes_to_digits ent) 256 2 (length ent * 4) false in
    let cut := (- Z.of_nat (length binresult) / 33)%Z in
    let ent := digits_to_bytes (change_base (py_slice_to binresult cut) 2 256 0 false) in
    let checksum_ := py_slice_from binresult cut in
    cs <- checksum ent ;;
    if digits_eqb checksum_ cs then Ok ent
    else Raise (Warning_invalid_checksum checksum_ ent)
  else Ok ent.

(** Lines 161 to 166 of [to_entropy]: the sanitized sentence, split, and
    the index of every word in the wordlist of the instance. *)
Definition indices_of_words (self : Mnemonic) (words : string) : result (list N) :=
  words <- sanitize_mnemonic self words ;;
  let words := split_space words in
  mapM (py_index (_wordlist self)) words.

Definition to_entropy (self : Mnemonic) (words : string) (includes_checksum : bool)
    : result bytes :=
  wi <- indices_of_words self words ;;
  entropy_of_indices wi includes_checksum.
End MnemonicClass.

(** ** A wordlist directory to run the code on

    Two languages of 2048 distinct words each: the words of [lang_a] are
    ["a"] followed by three letters, those of [lang_b] are ["b"] followed by
    three letters.  On sentences of such words (ASCII) NFKD normalization
    changes nothing. *)

Definition letter (n : nat) : ascii := ascii_of_nat (97 + n).

Definition test_word (prefix : ascii) (i : nat) : string :=
  String prefix
    (String (letter (i / 256))
       (String (letter (i / 16 mod 16)) (String (letter (i mod 16)) EmptyString))).

Definition test_wordlist (prefix : ascii) : list string :=
  map (test_word prefix) (seq 0 2048).

Definition wordlist_a : list string := Eval vm_compute in test_wordlist "a".
Definition wordlist_b : list string := Eval vm_compute in test_wordlist "b".

Definition test_dir : list (string * list string) :=
  [("lang_a"%string, wordlist_a); ("lang_b"%string, wordlist_b)].

Definition nfkd_ascii (s : string) : string := s.

Definition zero_tape (n : nat) : byte := x00.


Definition mnemonic_a : Mnemonic := {| _wordlist := wordlist_a |}.
Definition mnemonic_b : Mnemonic := {| _wordlist := wordlist_b |}.

Definition unhex_digit (c : ascii) : N :=
  let n := N_of_ascii c in if (n <? 58)%N then n - 48 else n - 87.

Fixpoint unhex (s : string) : bytes :=
  match s with
  | String a (String b s') => byte_of_N (16 * unhex_digit a + unhex_digit b) :: unhex s'
  | _ => []
  end.

(** ** Notions the properties are stated with *)

(** The number of trailing elements [l[-len(l) // 33:]] takes from a
    sequence of length [len]: [ceil(len / 33)]. *)
Definition checksum_bits (len : nat) : nat := (len + 32) / 33.

(** A number written as a bit string of a given width, most significant
    bit first. *)
Definition bit_string (width : nat) (x : N) : list N :=
  map (fun i => N.b2n (N.testbit x (N.of_nat i))) (rev (seq 0 width)).

(** The 256-bit SHA-256 hash of [data], expressed as a bit string. *)
Definition sha256_bit_string (data : bytes) : list N :=
  bit_string 256 (digits_value 256 (bytes_to_digits (sha256 data))).

(** PBKDF2 as RFC 2898 defines it, over a pseudorandom function [prf] with
    [hLen] bytes of output: [U_1 = prf(P, S || INT(i))],
    [U_j = prf(P, U_(j-1))], [T_i = U_1 xor ... xor U_c], and the derived
    key is the first [dkLen] bytes of [T_1 || T_2 || ...]. *)
Section RFC2898.
Variable prf : bytes -> bytes -> bytes.
Variable hLen : nat.

Fixpoint pbkdf2_U_from (P U : bytes) (n : nat) : list bytes :=
  match n with
  | O => []
  | S n' => let U' := prf P U in U' :: pbkdf2_U_from P U' n'
  end.

Definition pbkdf2_T (P S : bytes) (c : nat) (i : N) : bytes :=
  let U1 := prf P (S ++ pack_L i) in
  fold_left xor_bytes (pbkdf2_U_from P U1 (c - 1)) U1.

Definition pbkdf2 (P S : bytes) (c dkLen : nat) : bytes :=
  firstn dkLen
    (flat_map (fun i => pbkdf2_T P S c (N.of_nat i))
       (seq 1 ((dkLen + hLen - 1) / hLen))).
End RFC2898.

Definition pbkdf2_hmac_sha512 : bytes -> bytes -> nat -> nat -> bytes :=
  pbkdf2 (hmac sha512 128) 64.

(** How many of the words are members of a wordlist. *)
Definition member_count (wordlist words : list string) : nat :=
  length (filter (fun w => py_in w wordlist) words).

(** The bit string [to_entropy] splits (its [binresult]) for the word
    indices [wi]: the number the indices write in base 2048, written in base
    2 with at least 4 bits for every byte the number takes. *)
Definition sentence_bits (wi : list N) : list N :=
  let n := digits_value 2048 wi in
  pad_left (length (number_digits 256 n) * 4) (number_digits 2 n).

(** ** Sentences to run the code on *)

(** The mnemonic of the entropy [7f 7f ... 7f] (16 bytes) in [lang_b]. *)
Definition lang_b_sentence : string :=
  "bdpl bhnp bgpo bhph bhlp bfpn bhop bhhp bdpl bhnp bgpo bhpi".



(** ** Wordlists as the specification has them *)

Fixpoint has_space (s : string) : bool :=
  match s with
  | EmptyString => false
  | String c s' => Ascii.eqb c " " || has_space s'
  end.

Fixpoint distinct (l : list string) : bool :=
  match l with
  | [] => true
  | x :: l' => negb (py_in x l') && distinct l'
  end.

(** 2048 words, all different, none with a space in it. *)
Definition wordlist_ok (wl : list string) : bool :=
  Nat.eqb (length wl) 2048 && distinct wl && forallb (fun w => negb (has_space w)) wl.

(** The word at an index, for indices of the wordlist. *)
Definition word_at (wl : list string) (i : N) : string := nth (N.to_nat i) wl EmptyString.

(** ** The number a mnemonic writes

    For an entropy [E] of [4 c] bytes: its [c] checksum bits, its value as
    a number, and the value of its checksum. *)
Definition checksum_size (E : bytes) : nat := length E / 4.

Definition entropy_value (E : bytes) : N := digits_value 256 (bytes_to_digits E).

Definition entropy_checksum (E : bytes) : list N :=
  firstn (checksum_size E) (sha256_bit_string E).

Definition checksum_value (E : bytes) : N := digits_value 2 (entropy_checksum E).

(** * Test vectors and small runs *)

Example change_base_bits : change_base [5; 1]%N 256 2 16 false
  = [0;0;0;0;0;1;0;1; 0;0;0;0;0;0;0;1]%N.
Proof. reflexivity. Qed.

Example change_base_words : change_base [1;1;1;1;1;1;1;1;1;1;1;1]%N 2 2048 0 false
  = [1; 2047]%N.
Proof. reflexivity. Qed.

Example py_slices : py_slice_to [1;2;3;4;5] (-2) = [1;2;3]
  /\ py_slice_from [1;2;3;4;5] (-2) = [4;5]
  /\ py_slice_to [1;2;3] 0 = [] /\ py_slice_from [1;2;3] 0 = [1;2;3].
Proof. repeat split. Qed.

Example split_join : split_space "ab  c" = ["ab"; EmptyString; "c"]%string
  /\ split_space EmptyString = [EmptyString]
  /\ join_space ["ab"; EmptyString; "c"]%string = "ab  c"%string.
Proof. repeat split. Qed.

Example sha256_abc : hex (sha256 (bytes_of_string "abc"))
  = "ba7816bf8f01cfea414140de5dae2223b00361a396177a9cb410ff61f20015ad"%string.
Proof. vm_compute. reflexivity. Qed.

Example sha256_empty : hex (sha256 [])
  = "e3b0c44298fc1c149afbf4c8996fb92427ae41e4649b934ca495991b7852b855"%string.
Proof. vm_compute. reflexivity. Qed.

Example sha512_abc : hex (sha512 (bytes_of_string "abc"))
  = ("ddaf35a193617abacc417349ae20413112e6fa4e89a97ea20a9eeee64b55d39a"
  ++ "2192992a274fc1a836ba3c23a3feebbd454d4423643ce80e2a9ac94fa54ca49f")%string.
Proof. vm_compute. reflexivity. Qed.

Example pbkdf2_hmac_sha512_1 :
  hex (PBKDF2_read sha512 128 (bytes_of_string "password") (bytes_of_string "salt") 2 64)
  = ("e1d9c16aa681708a45f5c7c4e215ceb66e011a2e9f0040713f18aefdb866d53c"
  ++ "f76cab2868a39b9f7840edce4fef5a82be67335c77a6068e04112754f27ccf4e")%string.
Proof. vm_compute. reflexivity. Qed.

Example round_constants :
  firstn 2 K256 = [0x428a2f98; 0x71374491]%N /\ last K256 0%N = 0xc67178f2%N
  /\ firstn 1 H256 = [0x6a09e667]%N /\ length K256 = 64 /\ length K512 = 80.
Proof. repeat split. Qed.

Example sha256_two_blocks :
  hex (sha256 (bytes_of_string "abcdbcdecdefdefgefghfghighijhijkijkljklmklmnlmnomnopnopq"))
  = "248d6a61d20638b8e5c026930c3e6039a33ce45964ff2167f6ecedd419db06c1"%string.
Proof. vm_compute. reflexivity. Qed.
(** ** Facts about digits and re-basing *)

Section DigitFacts.
Variable b : N.
Hypothesis b_ge_2 : (2 <= b)%N.

Lemma pow_length_S (n : nat) : (b ^ N.of_nat (S n) = b * b ^ N.of_nat n)%N.
Proof. rewrite Nat2N.inj_succ, N.pow_succ_r'. reflexivity. Qed.

Lemma pow_pos (n : nat) : (0 < b ^ N.of_nat n)%N.
Proof. apply N.neq_0_lt_0, N.pow_nonzero. lia. Qed.

Lemma fold_value_acc (l : list N) (acc : N) :
  fold_left (fun a d => (a * b + d)%N) l acc
  = (acc * b ^ N.of_nat (length l) + digits_value b l)%N.
Proof.
  unfold digits_value. revert acc.
  induction l as [|d l IH]; intros acc.
  - simpl. lia.
  - cbn [fold_left length]. rewrite IH, (IH (0 * b + d)%N), pow_length_S. lia.
Qed.

Lemma digits_value_cons (d : N) (l : list N) :
  digits_value b (d :: l) = (d * b ^ N.of_nat (length l) + digits_value b l)%N.
Proof.
  unfold digits_value at 1. cbn [fold_left]. rewrite fold_value_acc. lia.
Qed.

Lemma digits_value_app (l1 l2 : list N) :
  digits_value b (l1 ++ l2)
  = (digits_value b l1 * b ^ N.of_nat (length l2) + digits_value b l2)%N.
Proof.
  unfold digits_value at 1. rewrite fold_left_app.
  fold (digits_value b l1). apply fold_value_acc.
Qed.

Lemma digits_value_snoc (l : list N) (d : N) :
  digits_value b (l ++ [d]) = (digits_value b l * b + d)%N.
Proof.
  rewrite digits_value_app. cbn [length]. change (N.of_nat 1) with 1%N.
  rewrite N.pow_1_r. unfold digits_value at 2. cbn [fold_left]. lia.
Qed.

Lemma digits_value_zeros (k : nat) : digits_value b (repeat 0%N k) = 0%N.
Proof.
  induction k as [|k IH]; [reflexivity|].
  cbn [repeat]. rewrite digits_value_cons, IH. lia.
Qed.

(** Digits below the base bound the value. *)
Lemma digits_value_lt (l : list N) :
  Forall (fun d => (d < b)%N) l -> (digits_value b l < b ^ N.of_nat (length l))%N.
Proof.
  induction 1 as [|d l Hd _ IH].
  - cbn. lia.
  - rewrite digits_value_cons. cbn [length]. rewrite pow_length_S.
    nia.
Qed.

Lemma digits_value_ge (d : N) (l : list N) :
  d <> 0%N -> (b ^ N.of_nat (length l) <= digits_value b (d :: l))%N.
Proof.
  intros Hd. rewrite digits_value_cons. nia.
Qed.

(** Two digit strings of one length with one value are equal. *)
Lemma digits_value_inj (l1 l2 : list N) :
  length l1 = length l2 ->
  Forall (fun d => (d < b)%N) l1 -> Forall (fun d => (d < b)%N) l2 ->
  digits_value b l1 = digits_value b l2 -> l1 = l2.
Proof.
  revert l2. induction l1 as [|d1 l1 IH]; intros [|d2 l2] Hlen H1 H2 Hv;
    try discriminate; [reflexivity|].
  inversion H1 as [|? ? Hd1 Hl1]; subst. inversion H2 as [|? ? Hd2 Hl2]; subst.
  injection Hlen as Hlen.
  rewrite !digits_value_cons, Hlen in Hv.
  pose proof (digits_value_lt Hl1) as B1.
  pose proof (digits_value_lt Hl2) as B2.
  rewrite Hlen in B1.
  assert (d1 = d2) by nia. subst d2.
  f_equal. apply IH; auto. lia.
Qed.

(** Splitting a digit string splits its value. *)
Lemma digits_value_firstn (l : list N) (c : nat) :
  Forall (fun d => (d < b)%N) l -> c <= length l ->
  digits_value b (firstn c l) = (digits_value b l / b ^ N.of_nat (length l - c))%N.
Proof.
  intros Hl Hc.
  rewrite <- (firstn_skipn c l) at 2. rewrite digits_value_app, length_skipn.
  assert (Hs : Forall (fun d => (d < b)%N) (skipn c l)).
  { apply Forall_forall. intros x Hx. rewrite Forall_forall in Hl.
    apply Hl. rewrite <- (firstn_skipn c l). apply in_or_app. now right. }
  pose proof (digits_value_lt Hs) as B. rewrite length_skipn in B.
  apply N.div_unique with (r := digits_value b (skipn c l)); [exact B | lia].
Qed.

Lemma digits_value_skipn (l : list N) (c : nat) :
  Forall (fun d => (d < b)%N) l -> c <= length l ->
  digits_value b (skipn c l) = (digits_value b l mod b ^ N.of_nat (length l - c))%N.
Proof.
  intros Hl Hc.
  rewrite <- (firstn_skipn c l) at 2. rewrite digits_value_app, length_skipn.
  assert (Hs : Forall (fun d => (d < b)%N) (skipn c l)).
  { apply Forall_forall. intros x Hx. rewrite Forall_forall in Hl.
    apply Hl. rewrite <- (firstn_skipn c l). apply in_or_app. now right. }
  pose proof (digits_value_lt Hs) as B. rewrite length_skipn in B.
  apply N.mod_unique with (q := digits_value b (firstn c l)); [exact B | lia].
Qed.

(** The digits of a number: fuel does not matter once there is enough. *)
Lemma number_digits_aux_acc (fuel : nat) (n : N) (acc : list N) :
  number_digits_aux fuel b n acc = number_digits_aux fuel b n [] ++ acc.
Proof.
  revert n acc. induction fuel as [|fuel IH]; intros n acc; cbn.
  - reflexivity.
  - destruct (n =? 0)%N; [reflexivity|].
    rewrite IH, (IH _ [_]), <- app_assoc. reflexivity.
Qed.

Lemma number_digits_aux_fuel (fuel fuel' : nat) (n : N) (acc : list N) :
  (n < 2 ^ N.of_nat fuel)%N -> (n < 2 ^ N.of_nat fuel')%N ->
  number_digits_aux fuel b n acc = number_digits_aux fuel' b n acc.
Proof.
  revert fuel' n acc. induction fuel as [|fuel IH]; intros fuel' n acc H H'.
  - cbn in H. assert (n = 0%N) by lia. subst n.
    destruct fuel'; reflexivity.
  - destruct fuel' as [|fuel'].
    + cbn in H'. assert (n = 0%N) by lia. subst n. reflexivity.
    + cbn [number_digits_aux]. destruct (N.eqb_spec n 0); [reflexivity|].
      rewrite Nat2N.inj_succ, N.pow_succ_r' in H, H'.
      apply IH.
      * apply N.Div0.div_lt_upper_bound. nia.
      * apply N.Div0.div_lt_upper_bound. nia.
Qed.

Lemma number_digits_0 : number_digits b 0 = [].
Proof. reflexivity. Qed.

Lemma size_fuel (n : N) : (n < 2 ^ N.of_nat (N.to_nat (N.size n)))%N.
Proof. rewrite N2Nat.id. apply N.size_gt. Qed.

Lemma number_digits_step (n : N) :
  n <> 0%N -> number_digits b n = number_digits b (n / b) ++ [(n mod b)%N].
Proof.
  intros Hn. unfold number_digits.
  pose proof (size_fuel n) as Hf.
  destruct (N.to_nat (N.size n)) as [|fuel] eqn:E.
  - cbn in Hf. lia.
  - cbn [number_digits_aux]. destruct (N.eqb_spec n 0); [contradiction|].
    rewrite number_digits_aux_acc. f_equal.
    apply number_digits_aux_fuel; [|apply size_fuel].
    rewrite Nat2N.inj_succ, N.pow_succ_r' in Hf.
    apply N.Div0.div_lt_upper_bound. nia.
Qed.

Lemma number_digits_value (n : N) : digits_value b (number_digits b n) = n.
Proof.
  induction n as [n IH] using (well_founded_induction N.lt_wf_0).
  destruct (N.eq_dec n 0) as [->|Hn]; [reflexivity|].
  rewrite number_digits_step, digits_value_snoc, IH by (try apply N.div_lt; lia).
  rewrite (N.div_mod n b) at 3 by lia. lia.
Qed.

Lemma number_digits_lt (n : N) : Forall (fun d => (d < b)%N) (number_digits b n).
Proof.
  induction n as [n IH] using (well_founded_induction N.lt_wf_0).
  destruct (N.eq_dec n 0) as [->|Hn]; [constructor|].
  rewrite number_digits_step by assumption.
  apply Forall_app. split.
  - apply IH, N.div_lt; lia.
  - constructor; [apply N.mod_lt; lia | constructor].
Qed.

(** The number of digits of [n] is the least [m] with [n < b^m]. *)
Lemma number_digits_length_lt (n : N) :
  (n < b ^ N.of_nat (length (number_digits b n)))%N.
Proof.
  rewrite <- (number_digits_value n) at 1.
  apply digits_value_lt, number_digits_lt.
Qed.

Lemma number_digits_length_le (n : N) (m : nat) :
  (n < b ^ N.of_nat m)%N -> length (number_digits b n) <= m.
Proof.
  revert m. induction n as [n IH] using (well_founded_induction N.lt_wf_0).
  intros m Hm.
  destruct (N.eq_dec n 0) as [->|Hn]; [cbn; lia|].
  rewrite number_digits_step by assumption. rewrite length_app. cbn [length].
  destruct m as [|m].
  - cbn in Hm. lia.
  - rewrite pow_length_S in Hm.
    assert (length (number_digits b (n / b)) <= m); [|lia].
    apply IH; [apply N.div_lt; lia|].
    apply N.Div0.div_lt_upper_bound. lia.
Qed.

Lemma number_digits_length_ge (n : N) (m : nat) :
  (b ^ N.of_nat m <= n)%N -> m < length (number_digits b n).
Proof.
  intros Hm.
  destruct (Nat.lt_ge_cases m (length (number_digits b n))) as [|Hle]; [assumption|].
  pose proof (number_digits_length_lt n) as Hlt.
  assert ((b ^ N.of_nat (length (number_digits b n)) <= b ^ N.of_nat m)%N).
  { apply N.pow_le_mono_r; lia. }
  lia.
Qed.

(** A digit string without a leading zero is the digit string of its value. *)
Lemma number_digits_canonical (d : N) (l : list N) :
  d <> 0%N -> Forall (fun x => (x < b)%N) (d :: l) ->
  number_digits b (digits_value b (d :: l)) = d :: l.
Proof.
  intros Hd Hl.
  apply digits_value_inj.
  - apply Nat.le_antisymm.
    + apply number_digits_length_le, digits_value_lt, Hl.
    + cbn [length]. apply Nat.le_succ_l, number_digits_length_ge.
      apply digits_value_ge, Hd.
  - apply number_digits_lt.
  - assumption.
  - apply number_digits_value.
Qed.

Lemma pad_left_value (m : nat) (l : list N) :
  digits_value b (pad_left m l) = digits_value b l.
Proof.
  unfold pad_left. rewrite digits_value_app, digits_value_zeros. lia.
Qed.

Lemma pad_left_lt (m : nat) (l : list N) :
  Forall (fun d => (d < b)%N) l -> Forall (fun d => (d < b)%N) (pad_left m l).
Proof.
  intros H. apply Forall_app. split; [|assumption].
  apply Forall_forall. intros x Hx. apply repeat_spec in Hx. subst. lia.
Qed.
End DigitFacts.

Lemma pad_left_length (m : nat) (l : list N) :
  length (pad_left m l) = Nat.max m (length l).
Proof. unfold pad_left. rewrite length_app, repeat_length. lia. Qed.

(** ** Facts about bytes, slices and the hash *)

Lemma to_N_lt (x : byte) : (Byte.to_N x < 256)%N.
Proof. pose proof (Byte.to_N_bounded x). lia. Qed.

Lemma byte_of_N_to_N (x : byte) : byte_of_N (Byte.to_N x) = x.
Proof.
  unfold byte_of_N. rewrite N.mod_small by apply to_N_lt.
  now rewrite Byte.of_to_N.
Qed.

Lemma to_N_byte_of_N (d : N) : (d < 256)%N -> Byte.to_N (byte_of_N d) = d.
Proof.
  intros Hd. unfold byte_of_N. rewrite N.mod_small by assumption.
  destruct (Byte.of_N d) as [y|] eqn:E.
  - now apply Byte.to_of_N.
  - apply Byte.of_N_None_iff in E. lia.
Qed.

Lemma bytes_to_digits_lt (bs : bytes) :
  Forall (fun d => (d < 256)%N) (bytes_to_digits bs).
Proof.
  unfold bytes_to_digits. apply Forall_forall. intros d Hd.
  apply in_map_iff in Hd. destruct Hd as [x [<- _]]. apply to_N_lt.
Qed.

Lemma bytes_digits_bytes (bs : bytes) : digits_to_bytes (bytes_to_digits bs) = bs.
Proof.
  unfold digits_to_bytes, bytes_to_digits. rewrite map_map.
  induction bs as [|x bs IH]; cbn; [reflexivity|].
  now rewrite byte_of_N_to_N, IH.
Qed.

Lemma digits_bytes_digits (ds : list N) :
  Forall (fun d => (d < 256)%N) ds -> bytes_to_digits (digits_to_bytes ds) = ds.
Proof.
  unfold digits_to_bytes, bytes_to_digits. rewrite map_map.
  induction 1 as [|d ds Hd _ IH]; cbn; [reflexivity|].
  now rewrite to_N_byte_of_N, IH.
Qed.

Lemma bytes_to_digits_length (bs : bytes) : length (bytes_to_digits bs) = length bs.
Proof. apply length_map. Qed.

Lemma digits_to_bytes_length (ds : list N) : length (digits_to_bytes ds) = length ds.
Proof. apply length_map. Qed.

Lemma py_slice_to_nonneg {A : Type} (l : list A) (j : Z) :
  (0 <= j)%Z -> py_slice_to l j = firstn (Z.to_nat j) l.
Proof.
  intros Hj. unfold py_slice_to, py_bound.
  destruct (Z.ltb_spec j 0); [lia|].
  destruct (Nat.le_ge_cases (Z.to_nat j) (length l)) as [Hle|Hge].
  - now rewrite Nat.min_r.
  - rewrite Nat.min_l by assumption. rewrite !firstn_all2; auto.
Qed.

Lemma py_bound_cut (len : nat) :
  py_bound len (- Z.of_nat len / 33) = len - checksum_bits len.
Proof.
  unfold py_bound, checksum_bits.
  assert (E : (- Z.of_nat len / 33 = - Z.of_nat ((len + 32) / 33))%Z).
  { rewrite Nat2Z.inj_div, Nat2Z.inj_add. cbn [Z.of_nat Pos.of_succ_nat Pos.succ].
    generalize (Z.of_nat len) (Nat2Z.is_nonneg len). intros z Hz.
    Z.to_euclidean_division_equations. lia. }
  rewrite E.
  destruct (Z.ltb_spec (- Z.of_nat ((len + 32) / 33)) 0) as [Hlt|Hge].
  - lia.
  - assert ((len + 32) / 33 = 0) by lia.
    assert (len = 0).
    { destruct len; [reflexivity|].
      assert (1 <= (S len + 32) / 33); [|lia].
      apply Nat.div_le_lower_bound; lia. }
    subst. reflexivity.
Qed.

Lemma checksum_bits_le (len : nat) : checksum_bits len <= len.
Proof.
  unfold checksum_bits. destruct len; [reflexivity|].
  apply Nat.Div0.div_le_upper_bound. lia.
Qed.

Lemma bytes_of_word_length (n : nat) (x : N) : length (bytes_of_word n x) = n.
Proof. unfold bytes_of_word. now rewrite length_map, length_rev, length_seq. Qed.

Lemma sha2_length w K H0 S0 S1 s0 s1 (msg : bytes) :
  length (sha2 w K H0 S0 S1 s0 s1 msg) = 8 * wbytes w.
Proof.
  unfold sha2, state_bytes.
  generalize (fold_left (compress w K S0 S1 s0 s1)
                (chunks (length (pad_message w msg)) (16 * wbytes w) (pad_message w msg))
                (state_of H0)).
  intros s. cbn [flat_map]. rewrite !length_app, !bytes_of_word_length.
  cbn [length]. lia.
Qed.

Lemma sha256_length (msg : bytes) : length (sha256 msg) = 32.
Proof. unfold sha256. now rewrite sha2_length. Qed.

Lemma sha512_length (msg : bytes) : length (sha512 msg) = 64.
Proof. unfold sha512. now rewrite sha2_length. Qed.

Lemma bit_string_length (m : nat) (x : N) : length (bit_string m x) = m.
Proof. unfold bit_string. now rewrite length_map, length_rev, length_seq. Qed.

Lemma bit_string_lt (m : nat) (x : N) : Forall (fun d => (d < 2)%N) (bit_string m x).
Proof.
  unfold bit_string. apply Forall_forall. intros d Hd.
  apply in_map_iff in Hd. destruct Hd as [i [<- _]].
  destruct (N.testbit x (N.of_nat i)); cbn; lia.
Qed.

Lemma bit_string_value (m : nat) (x : N) :
  digits_value 2 (bit_string m x) = (x mod 2 ^ N.of_nat m)%N.
Proof.
  induction m as [|m IH].
  - cbn. now rewrite N.mod_1_r.
  - unfold bit_string in *. rewrite seq_S, rev_app_distr. cbn [rev app map Nat.add].
    rewrite digits_value_cons by lia. rewrite IH.
    rewrite length_map, length_rev, length_seq.
    rewrite N.testbit_spec', Nat2N.inj_succ, N.pow_succ_r', (N.mul_comm 2).
    rewrite N.Div0.mod_mul_r. lia.
Qed.

Lemma pad_left_bit_string (m : nat) (x : N) :
  (x < 2 ^ N.of_nat m)%N -> pad_left m (number_digits 2 x) = bit_string m x.
Proof.
  intros Hx. apply digits_value_inj with (b := 2%N); try lia.
  - rewrite pad_left_length, bit_string_length.
    pose proof (@number_digits_length_le 2%N ltac:(lia) x m Hx). lia.
  - apply pad_left_lt; [lia | apply number_digits_lt; lia].
  - apply bit_string_lt.
  - rewrite pad_left_value, number_digits_value, bit_string_value by lia.
    now rewrite N.mod_small.
Qed.

Lemma digest_value_lt (data : bytes) :
  (digits_value 256 (bytes_to_digits (sha256 data)) < 2 ^ N.of_nat 256)%N.
Proof.
  pose proof (@digits_value_lt 256%N ltac:(lia) _ (bytes_to_digits_lt (sha256 data))) as H.
  rewrite bytes_to_digits_length, sha256_length in H.
  replace (2 ^ N.of_nat 256)%N with (256 ^ N.of_nat 32)%N by (vm_compute; reflexivity).
  exact H.
Qed.

Lemma change_base_no_pad (chars : list N) (bf bt : N) :
  change_base chars bf bt 0 false = number_digits bt (digits_value bf chars).
Proof. unfold change_base, pad_left. cbn. reflexivity. Qed.

Lemma change_base_pad (chars : list N) (bf bt : N) (m : nat) :
  change_base chars bf bt m false = pad_left m (number_digits bt (digits_value bf chars)).
Proof. reflexivity. Qed.

Lemma hash_bits_eq (data : bytes) :
  change_base (bytes_to_digits (sha256 data)) 256 2 256 false = sha256_bit_string data.
Proof.
  rewrite change_base_pad. apply pad_left_bit_string, digest_value_lt.
Qed.

Lemma Ok_inj {A : Type} (a b : A) : Ok a = Ok b -> a = b.
Proof. intros H. now injection H. Qed.

(** *** Hexadecimal texts *)

Lemma unhexlify_pairs (d : bytes) :
  (forall r, unhexlify d = Some r -> length d = 2 * length r)
  /\ (forall a r, unhexlify (a :: d) = Some r -> length (a :: d) = 2 * length r).
Proof.
  induction d as [|b d [IH1 IH2]].
  - split; [|discriminate]. intros r H. injection H as <-. reflexivity.
  - split; [exact (IH2 b)|].
    intros a r. cbn [unhexlify].
    destruct (hex_value a) as [x|]; [|discriminate].
    destruct (hex_value b) as [y|]; [|discriminate].
    destruct (unhexlify d) as [r'|] eqn:E; [|discriminate].
    intros H. injection H as <-. cbn [length]. rewrite (IH1 r' eq_refl). lia.
Qed.

Lemma unhexlify_length (d r : bytes) :
  unhexlify d = Some r -> length d = 2 * length r.
Proof. apply unhexlify_pairs. Qed.

(** [to_bytes] leaves its data as it is, or halves its length. *)
Lemma to_bytes_cases (data : bytes) :
  (unhexlify data = None /\ to_bytes data = data)
  \/ (unhexlify data = Some (to_bytes data)
      /\ length data = 2 * length (to_bytes data)).
Proof.
  unfold to_bytes. destruct (unhexlify data) as [r|] eqn:E.
  - right. split; [reflexivity|]. now apply unhexlify_length.
  - left. split; reflexivity.
Qed.

(** *** The checksum *)

Lemma checksum_ok (data : bytes) :
  length (to_bytes data) mod 4 = 0 ->
  checksum data
  = Ok (firstn (length (to_bytes data) * 8 / 32) (sha256_bit_string (to_bytes data))).
Proof.
  intros Hlen. unfold checksum. cbv zeta. rewrite Hlen. cbn [Nat.ltb Nat.leb].
  rewrite hash_bits_eq, py_slice_to_nonneg by (apply Z.div_pos; lia).
  do 2 f_equal.
  rewrite <- (Nat2Z.id (length (to_bytes data) * 8 / 32)).
  f_equal. rewrite Nat2Z.inj_div, Nat2Z.inj_mul. reflexivity.
Qed.

Lemma checksum_raise (data : bytes) :
  length (to_bytes data) mod 4 <> 0 ->
  checksum data = Raise (ValueError_data_length (length (to_bytes data))).
Proof.
  intros Hnz. unfold checksum. cbv zeta.
  destruct (Nat.ltb_spec 0 (length (to_bytes data) mod 4)); [reflexivity|lia].
Qed.

Lemma checksum_cases (data : bytes) :
  (length (to_bytes data) mod 4 = 0 /\ exists cs, checksum data = Ok cs)
  \/ (length (to_bytes data) mod 4 <> 0
      /\ checksum data = Raise (ValueError_data_length (length (to_bytes data)))).
Proof.
  destruct (Nat.eq_dec (length (to_bytes data) mod 4) 0) as [Hz|Hnz].
  - left. split; [exact Hz|]. eexists. apply checksum_ok. exact Hz.
  - right. split; [exact Hnz|]. now apply checksum_raise.
Qed.

(** For data that is not a hexadecimal text. *)
Lemma checksum_ok_raw (data : bytes) :
  to_bytes data = data -> length data mod 4 = 0 ->
  checksum data = Ok (firstn (length data * 8 / 32) (sha256_bit_string data)).
Proof.
  intros Hraw Hlen. rewrite checksum_ok; rewrite Hraw; [reflexivity|exact Hlen].
Qed.

Lemma checksum_length (data : bytes) (cs : list N) :
  checksum data = Ok cs -> length cs = Nat.min (length (to_bytes data) * 8 / 32) 256.
Proof.
  destruct (checksum_cases data) as [[Hz _]|[_ Hr]].
  - rewrite checksum_ok by exact Hz. intros H. apply Ok_inj in H. subst cs.
    unfold sha256_bit_string. now rewrite length_firstn, bit_string_length.
  - rewrite Hr. discriminate.
Qed.

Lemma bits_mod_32 (n : nat) : (n * 8) mod 32 = 8 * (n mod 4).
Proof.
  rewrite (Nat.mul_comm n 8). change 32 with (8 * 4).
  now rewrite Nat.Div0.mul_mod_distr_l.
Qed.

(** C4, as the code has it.  [checksum] reads its data with [to_bytes]: a
    hexadecimal text stands for the bytes it spells, half as many, and any
    other data for itself.  With [d] the bytes so read, [checksum data]
    raises the length error exactly when the bit length [len(d) * 8] is not
    divisible by 32, and otherwise returns the first [len(d) * 8 / 32] bits
    of the 256-bit SHA-256 hash of [d] written as a bit string. *)
Theorem checksum_spec (data : bytes) :
  let d := to_bytes data in
  checksum data
  = (if Nat.eqb ((length d * 8) mod 32) 0
     then Ok (firstn (length d * 8 / 32) (sha256_bit_string d))
     else Raise (ValueError_data_length (length d)))
  /\ ((unhexlify data = None /\ d = data)
      \/ (unhexlify data = Some d /\ length data = 2 * length d)).
Proof.
  intros d. split; [|apply to_bytes_cases].
  rewrite bits_mod_32.
  destruct (Nat.eqb_spec (8 * (length d mod 4)) 0) as [Hz|Hnz].
  - apply checksum_ok. fold d. lia.
  - apply checksum_raise. fold d. lia.
Qed.

(** C4 as stated fails on a hexadecimal text: the four bytes [abcd] have
    32 bits, [checksum] reads them as the two bytes [ab cd], and raises the
    length error where the first bit of the hash of the four bytes is
    due. *)
Lemma checksum_hexadecimal_text :
  (length (bytes_of_string "abcd") * 8) mod 32 = 0
  /\ checksum (bytes_of_string "abcd") = Raise (ValueError_data_length 2)
  /\ checksum (bytes_of_string "abcd")
     <> Ok (firstn (length (bytes_of_string "abcd") * 8 / 32)
              (sha256_bit_string (bytes_of_string "abcd"))).
Proof.
  assert (H : checksum (bytes_of_string "abcd") = Raise (ValueError_data_length 2))
    by reflexivity.
  split; [reflexivity|]. split; [exact H|]. rewrite H. discriminate.
Qed.

(** ** The word lookup *)

(** C10.  With a wordlist of 2048 entries, [word index] is the entry at
    [index] for [0 <= index < 2048], an IndexError for [index >= 2048], and
    for [-2048 <= index < 0] the entry counted from the end, at
    [2048 + index]; below [-2048] it is an IndexError again. *)
Theorem word_lookup (self : Mnemonic) (index : Z) :
  length (_wordlist self) = 2048 ->
  word self index
  = if (2048 <=? index)%Z then Raise IndexError
    else if (0 <=? index)%Z then Ok (nth (Z.to_nat index) (_wordlist self) EmptyString)
    else if (-2048 <=? index)%Z
         then Ok (nth (Z.to_nat (2048 + index)) (_wordlist self) EmptyString)
    else Raise IndexError.
Proof.
  intros Hlen. unfold word, py_getitem. rewrite Hlen.
  change (Z.of_nat 2048) with 2048%Z. cbv zeta.
  destruct (Z.ltb_spec index 0);
    repeat match goal with
           | |- context [(?a <=? ?b)%Z] => destruct (Z.leb_spec a b)
           | |- context [(?a <? ?b)%Z] => destruct (Z.ltb_spec a b)
           end;
    cbn [andb]; try lia; try reflexivity;
    rewrite (nth_error_nth' _ EmptyString) by lia; reflexivity.
Qed.

Lemma word_lookup_witness :
  word mnemonic_a (-1) = Ok (nth 2047 (_wordlist mnemonic_a) EmptyString).
Proof.
  exact (@word_lookup mnemonic_a (-1) eq_refl).
Defined.

(** ** Generating a mnemonic *)






Example generate_run :
  generate nfkd_ascii zero_tape mnemonic_a 128 true 0
  = (to_mnemonic nfkd_ascii mnemonic_a (map zero_tape (seq 0 16)) true, 16)
  /\ generate nfkd_ascii zero_tape mnemonic_a 100 true 0 = (Raise ValueError_strength, 0).
Proof. split; reflexivity. Qed.


(** ** Seed derivation *)

Lemma xor_bytes_length (a b : bytes) :
  length (xor_bytes a b) = Nat.min (length a) (length b).
Proof. unfold xor_bytes. now rewrite length_map, length_combine. Qed.

Lemma hmac_sha512_length (key msg : bytes) : length (hmac sha512 128 key msg) = 64.
Proof. unfold hmac. apply sha512_length. Qed.

Lemma PBKDF2_rounds_spec digest bs (n : nat) (P U R : bytes) :
  PBKDF2_rounds digest bs n P U R
  = fold_left xor_bytes (pbkdf2_U_from (hmac digest bs) P U n) R.
Proof.
  revert U R. induction n as [|n IH]; intros U R;
    cbn [PBKDF2_rounds pbkdf2_U_from fold_left]; [reflexivity|].
  apply IH.
Qed.

Lemma PBKDF2_f_spec digest bs (P salt : bytes) (c : nat) (i : N) :
  PBKDF2_f digest bs P salt c i = pbkdf2_T (hmac digest bs) P salt c i.
Proof. unfold PBKDF2_f, pbkdf2_T. apply PBKDF2_rounds_spec. Qed.

Lemma fold_xor_length (Us : list bytes) (R : bytes) :
  length R = 64 -> Forall (fun U => length U = 64) Us ->
  length (fold_left xor_bytes Us R) = 64.
Proof.
  intros HR HUs. revert R HR.
  induction HUs as [|U Us HU _ IH]; intros R HR; cbn [fold_left]; [assumption|].
  apply IH. rewrite xor_bytes_length, HR, HU. reflexivity.
Qed.

Lemma pbkdf2_U_from_length (P U : bytes) (n : nat) :
  Forall (fun U => length U = 64) (pbkdf2_U_from (hmac sha512 128) P U n).
Proof.
  revert U. induction n as [|n IH]; intros U; cbn [pbkdf2_U_from]; constructor.
  - apply hmac_sha512_length.
  - apply IH.
Qed.

Lemma pbkdf2_T_length (P salt : bytes) (c : nat) (i : N) :
  length (pbkdf2_T (hmac sha512 128) P salt c i) = 64.
Proof.
  unfold pbkdf2_T. apply fold_xor_length.
  - apply hmac_sha512_length.
  - apply pbkdf2_U_from_length.
Qed.

(** One block is enough when it has the length asked for: the loop runs
    once. *)
Lemma PBKDF2_blocks_one digest bs (P salt : bytes) (c n fuel : nat) :
  0 < n -> length (PBKDF2_f digest bs P salt c 1) = n ->
  PBKDF2_blocks digest bs (S (S fuel)) P salt c 0 [] n = PBKDF2_f digest bs P salt c 1.
Proof.
  intros Hn Hlen. cbn [PBKDF2_blocks length].
  destruct (Nat.ltb_spec 0 n); [|lia].
  change (0 + 1)%N with 1%N. cbn [app]. rewrite Hlen, Nat.ltb_irrefl. reflexivity.
Qed.

Lemma PBKDF2_read_64 (P salt : bytes) (c : nat) :
  PBKDF2_read sha512 128 P salt c 64 = pbkdf2_hmac_sha512 P salt c 64.
Proof.
  unfold PBKDF2_read, pbkdf2_hmac_sha512, pbkdf2.
  change ((64 + 64 - 1) / 64) with 1. cbn [seq flat_map].
  change (N.of_nat 1) with 1%N. rewrite app_nil_r.
  f_equal. rewrite <- PBKDF2_f_spec.
  apply (@PBKDF2_blocks_one sha512 128 P salt c 64 62); [lia|].
  rewrite PBKDF2_f_spec. apply pbkdf2_T_length.
Qed.

(** C3.  For a sentence that sanitizes to [w] and any passphrase,
    [to_seed] returns the 64 bytes PBKDF2 (RFC 2898) derives with
    HMAC-SHA512 from the password [normalize_string w], the salt
    ["mnemonic"] followed by the passphrase bytes, and 2048 iterations.  The
    result is a function of the sentence and the passphrase alone, so two
    calls with the same pair return the same bytes. *)
Theorem to_seed_spec nfkd dir (self : Mnemonic) (words passphrase w : string) :
  sanitize_mnemonic nfkd dir self words = Ok w ->
  let password := bytes_of_string (nfkd w) in
  let salt := (bytes_of_string "mnemonic" ++ bytes_of_string passphrase)%list in
  to_seed nfkd dir self words passphrase
  = Ok (pbkdf2_hmac_sha512 password salt 2048 64)
  /\ length (pbkdf2_hmac_sha512 password salt 2048 64) = 64.
Proof.
  intros Hs password salt. split.
  - unfold to_seed. rewrite Hs. cbn [bind]. unfold PBKDF2_ROUNDS.
    now rewrite PBKDF2_read_64.
  - unfold pbkdf2_hmac_sha512, pbkdf2.
    change ((64 + 64 - 1) / 64) with 1. cbn [seq flat_map].
    rewrite app_nil_r, firstn_all2; rewrite pbkdf2_T_length; reflexivity.
Qed.

(** ** Strings, membership and dicts *)

Lemma append_nil_r (s : string) : (s ++ EmptyString)%string = s.
Proof. induction s as [|c s IH]; cbn; [reflexivity|now rewrite IH]. Qed.

Lemma append_assoc (a b c : string) : ((a ++ b) ++ c)%string = (a ++ (b ++ c))%string.
Proof. induction a as [|x a IH]; cbn; [reflexivity|now rewrite IH]. Qed.

Lemma split_space_aux_ext (cur cur' : string -> string) (s : string) :
  (forall t, cur t = cur' t) -> split_space_aux cur s = split_space_aux cur' s.
Proof.
  revert cur cur'. induction s as [|c s IH]; intros cur cur' H; cbn.
  - now rewrite H.
  - destruct (Ascii.eqb c " "); [now rewrite H|].
    apply IH. intros t. apply H.
Qed.

Lemma split_space_aux_nonempty (cur : string -> string) (s : string) :
  split_space_aux cur s <> [].
Proof.
  revert cur. induction s as [|c s IH]; intros cur; cbn; [discriminate|].
  destruct (Ascii.eqb c " "); [discriminate|apply IH].
Qed.

Lemma join_space_cons (w : string) (ws : list string) :
  ws <> [] -> join_space (w :: ws) = (w ++ String " " (join_space ws))%string.
Proof. destruct ws; [congruence|reflexivity]. Qed.

Lemma join_split_aux (s p : string) :
  join_space (split_space_aux (fun t => (p ++ t)%string) s) = (p ++ s)%string.
Proof.
  revert p. induction s as [|c s IH]; intros p; cbn [split_space_aux].
  - reflexivity.
  - destruct (Ascii.eqb_spec c " ") as [->|Hc].
    + rewrite join_space_cons by apply split_space_aux_nonempty.
      rewrite append_nil_r. f_equal. f_equal. exact (IH EmptyString).
    + rewrite (@split_space_aux_ext _ (fun t => ((p ++ String c EmptyString) ++ t)%string)).
      * rewrite IH, append_assoc. reflexivity.
      * intros t. rewrite append_assoc. reflexivity.
Qed.

(** Splitting at the spaces and joining with spaces gives the string back. *)
Lemma join_split_space (s : string) : join_space (split_space s) = s.
Proof. exact (join_split_aux s EmptyString). Qed.

Lemma py_in_spec (w : string) (l : list string) : py_in w l = true <-> In w l.
Proof.
  unfold py_in. rewrite existsb_exists. split.
  - intros [x [Hx E]]. apply String.eqb_eq in E. now subst.
  - intros H. exists w. split; [assumption|apply String.eqb_refl].
Qed.

Lemma py_in_false (w : string) (l : list string) : py_in w l = false <-> ~ In w l.
Proof.
  rewrite <- py_in_spec. destruct (py_in w l); split; congruence.
Qed.

Lemma count_members_acc (wl ws : list string) (c : nat) :
  fold_left (fun c word => if py_in word wl then c + 1 else c) ws c
  = c + member_count wl ws.
Proof.
  unfold member_count. revert c. induction ws as [|w ws IH]; intros c; cbn.
  - lia.
  - rewrite IH. destruct (py_in w wl); cbn [length]; lia.
Qed.

Lemma count_members_spec (wl ws : list string) :
  count_members wl ws = member_count wl ws.
Proof. unfold count_members. now rewrite count_members_acc. Qed.

Lemma dict_set_fresh (d : dict) (k : string) (v : nat) :
  ~ In k (map fst d) -> dict_set d k v = d ++ [(k, v)].
Proof.
  induction d as [|[k' v'] d IH]; cbn; intros H; [reflexivity|].
  destruct (String.eqb_spec k' k) as [->|_]; [tauto|].
  rewrite IH by tauto. reflexivity.
Qed.

(** With one file per language, the loop over the directory makes one dict
    entry per file, in the order of the directory. *)
Lemma wlcount_fold (ws : list string) (dir : list (string * list string)) (d0 : dict) :
  NoDup (map fst d0 ++ map fst dir) ->
  fold_left
    (fun wlcount (fn : string * list string) =>
       let (language, wordlist) := fn in
       dict_set wlcount language (count_members wordlist ws)) dir d0
  = d0 ++ map (fun fn => (fst fn, member_count (snd fn) ws)) dir.
Proof.
  revert d0. induction dir as [|[lang wl] dir IH]; intros d0 Hnd; cbn [fold_left map].
  - now rewrite app_nil_r.
  - cbn [map fst] in Hnd.
    rewrite dict_set_fresh.
    + rewrite IH.
      * rewrite <- app_assoc, count_members_spec. reflexivity.
      * rewrite map_app, <- app_assoc. exact Hnd.
    + apply NoDup_remove_2 in Hnd. intros Hin. apply Hnd.
      apply in_or_app. now left.
Qed.

Lemma max_from_spec (d : dict) (best : string * nat) :
  exists v, In (max_from d best, v) (best :: d)
            /\ Forall (fun e => snd e <= v) (best :: d).
Proof.
  revert best. induction d as [|[k v] d IH]; intros [bk bv]; cbn [max_from fst snd].
  - exists bv. split; [now left|]. repeat constructor.
  - destruct (Nat.ltb_spec bv v) as [Hlt|Hge].
    + destruct (IH (k, v)) as [m [Hin Hall]]. exists m. split.
      * destruct Hin as [Hin|Hin]; [right; left; exact Hin|right; right; exact Hin].
      * inversion Hall as [|? ? Hk Hd]; subst. cbn in Hk.
        constructor; [cbn; lia|]. constructor; [exact Hk|exact Hd].
    + destruct (IH (bk, bv)) as [m [Hin Hall]]. exists m. split.
      * destruct Hin as [Hin|Hin]; [left; exact Hin|right; right; exact Hin].
      * inversion Hall as [|? ? Hk Hd]; subst. cbn in Hk.
        constructor; [exact Hk|]. constructor; [cbn; lia|exact Hd].
Qed.

Lemma py_max_key_spec (d : dict) :
  d <> [] ->
  exists k m, py_max_key d = Ok k /\ In (k, m) d /\ Forall (fun e => snd e <= m) d.
Proof.
  destruct d as [|kv d']; [congruence|]. intros _.
  destruct (max_from_spec d' kv) as [m [Hin Hall]].
  exists (max_from d' kv), m. repeat split; assumption.
Qed.

Lemma dict_get_in (d : dict) (k : string) (v : nat) :
  NoDup (map fst d) -> In (k, v) d -> dict_get d k = v.
Proof.
  induction d as [|[k' v'] d IH]; cbn; intros Hnd Hin; [contradiction|].
  inversion Hnd as [|? ? Hk Hd]; subst.
  destruct Hin as [E|Hin].
  - injection E as -> ->. now rewrite String.eqb_refl.
  - destruct (String.eqb_spec k' k) as [->|_].
    + exfalso. apply Hk. apply in_map_iff. exists (k, v). split; [reflexivity|assumption].
    + now apply IH.
Qed.

Lemma read_wordlist_in (dir : list (string * list string)) (lang : string) (wl : list string) :
  NoDup (map fst dir) -> In (lang, wl) dir -> read_wordlist dir lang = Ok wl.
Proof.
  unfold read_wordlist.
  induction dir as [|[k l] dir IH]; cbn; intros Hnd Hin; [contradiction|].
  inversion Hnd as [|? ? Hk Hd]; subst.
  destruct Hin as [E|Hin].
  - injection E as -> ->. now rewrite String.eqb_refl.
  - destruct (String.eqb_spec k lang) as [->|_].
    + exfalso. apply Hk. apply in_map_iff. exists (lang, wl). split; [reflexivity|assumption].
    + now apply IH.
Qed.

(** ** Language detection *)

(** The outcome of [detect_language] in terms of the member counts. *)
Lemma detect_language_cases nfkd (dir : list (string * list string)) (words : string) :
  dir <> [] -> NoDup (map fst dir) ->
  let ws := split_space (nfkd words) in
  exists lang wl,
    In (lang, wl) dir
    /\ Forall (fun fn => member_count (snd fn) ws <= member_count wl ws) dir
    /\ detect_language nfkd dir words
       = if Nat.eqb (member_count wl ws) 0 then Raise (Warning_language ws) else Ok lang.
Proof.
  intros Hne Hnd ws. unfold detect_language. fold ws.
  rewrite (@wlcount_fold ws dir []) by exact Hnd. cbn [app].
  set (d := map (fun fn => (fst fn, member_count (snd fn) ws)) dir).
  assert (Hkeys : map fst d = map fst dir).
  { unfold d. rewrite map_map. reflexivity. }
  assert (Hd : d <> []).
  { unfold d. destruct dir; [congruence|discriminate]. }
  destruct (py_max_key_spec Hd) as [k [m [Hmax [Hin Hall]]]].
  rewrite Hmax. cbn [bind].
  assert (Hget : dict_get d k = m).
  { apply dict_get_in; [rewrite Hkeys; exact Hnd|exact Hin]. }
  rewrite Hget.
  assert (Hle : Forall (fun fn => member_count (snd fn) ws <= m) dir).
  { rewrite Forall_forall in Hall |- *. intros fn Hfn.
    apply (Hall (fst fn, member_count (snd fn) ws)).
    unfold d. apply in_map_iff. exists fn. split; [reflexivity|assumption]. }
  unfold d in Hin. apply in_map_iff in Hin. destruct Hin as [[lang wl] [E Hdir]].
  cbn [fst snd] in E. injection E as Elang Em.
  subst k m. exists lang, wl. repeat split; assumption.
Qed.

(** C8.  With a wordlist directory that is not empty and has one file per
    language, [detect_language] returns a language whose wordlist contains
    the largest number of the normalized input words, that number being
    positive, and raises the language warning exactly when no wordlist
    contains any of the words. *)
Theorem detect_language_spec nfkd (dir : list (string * list string)) (words : string) :
  dir <> [] -> NoDup (map fst dir) ->
  let ws := split_space (nfkd words) in
  match detect_language nfkd dir words with
  | Ok lang =>
      exists wl, In (lang, wl) dir
                 /\ 0 < member_count wl ws
                 /\ Forall (fun fn => member_count (snd fn) ws <= member_count wl ws) dir
  | Raise e =>
      e = Warning_language ws
      /\ Forall (fun fn => member_count (snd fn) ws = 0) dir
  end.
Proof.
  intros Hne Hnd ws.
  destruct (detect_language_cases nfkd words Hne Hnd) as [lang [wl [Hin [Hmax Hdet]]]].
  fold ws in Hmax, Hdet. rewrite Hdet.
  destruct (Nat.eqb_spec (member_count wl ws) 0) as [Hz|Hnz].
  - split; [reflexivity|].
    rewrite Forall_forall in Hmax |- *. intros fn Hfn.
    specialize (Hmax fn Hfn). lia.
  - exists wl. repeat split; [exact Hin|lia|exact Hmax].
Qed.

Lemma test_dir_no_dup : NoDup (map fst test_dir).
Proof.
  cbn. repeat constructor; cbn; intuition discriminate.
Qed.

Lemma detect_language_spec_witness :
  test_dir <> [] /\ NoDup (map fst test_dir)
  /\ (let ws := split_space (nfkd_ascii "baab zzzz baac") in
      match detect_language nfkd_ascii test_dir "baab zzzz baac" with
      | Ok lang =>
          exists wl, In (lang, wl) test_dir
                     /\ 0 < member_count wl ws
                     /\ Forall (fun fn => member_count (snd fn) ws <= member_count wl ws)
                          test_dir
      | Raise e =>
          e = Warning_language ws
          /\ Forall (fun fn => member_count (snd fn) ws = 0) test_dir
      end).
Proof.
  split; [discriminate|]. split; [exact test_dir_no_dup|].
  apply (@detect_language_spec nfkd_ascii test_dir "baab zzzz baac");
    [discriminate|exact test_dir_no_dup].
Defined.

Example detect_language_run :
  detect_language nfkd_ascii test_dir "baab zzzz baac" = Ok "lang_b"%string
  /\ detect_language nfkd_ascii test_dir "aaab baab" = Ok "lang_a"%string
  /\ detect_language nfkd_ascii test_dir "zzzz" = Raise (Warning_language ["zzzz"%string]).
Proof. repeat split; vm_compute; reflexivity. Qed.

(** ** Sanitizing a sentence *)

Lemma dict_set_keys (d : dict) (k : string) (v : nat) (x : string) :
  In x (map fst (dict_set d k v)) -> x = k \/ In x (map fst d).
Proof.
  induction d as [|[k' v'] d IH]; cbn.
  - intuition.
  - destruct (String.eqb_spec k' k) as [->|_]; cbn; intuition.
Qed.

Lemma wlcount_keys (ws : list string) (dir : list (string * list string)) (d0 : dict)
    (x : string) :
  In x (map fst
          (fold_left
             (fun wlcount (fn : string * list string) =>
                let (language, wordlist) := fn in
                dict_set wlcount language (count_members wordlist ws)) dir d0)) ->
  In x (map fst d0) \/ In x (map fst dir).
Proof.
  revert d0. induction dir as [|[lang wl] dir IH]; intros d0; cbn [fold_left map fst].
  - now left.
  - intros H. apply IH in H. destruct H as [H|H]; [|right; now right].
    apply dict_set_keys in H. destruct H as [->|H]; [right; now left|now left].
Qed.

Lemma detect_language_in (nfkd : string -> string) (dir : list (string * list string))
    (words lang : string) :
  detect_language nfkd dir words = Ok lang -> In lang (map fst dir).
Proof.
  unfold detect_language.
  match goal with |- context [py_max_key ?x] => set (d := x) end.
  destruct d as [|kv d'] eqn:Ed; [discriminate|].
  cbn [py_max_key bind].
  destruct (Nat.eqb _ 0); [discriminate|].
  intros H. injection H as <-.
  destruct (max_from_spec d' kv) as [m [Hin _]].
  assert (Hk : In (max_from d' kv) (map fst d)).
  { rewrite Ed. apply in_map_iff. exists (max_from d' kv, m). split; [reflexivity|exact Hin]. }
  unfold d in Hk. apply wlcount_keys in Hk. destruct Hk as [[]|Hk]. exact Hk.
Qed.

Lemma read_wordlist_key (dir : list (string * list string)) (lang : string) :
  In lang (map fst dir) ->
  exists wl, read_wordlist dir lang = Ok wl /\ In (lang, wl) dir.
Proof.
  unfold read_wordlist. intros Hin.
  destruct (find (fun e => String.eqb (fst e) lang) dir) as [[k wl]|] eqn:E.
  - apply find_some in E. destruct E as [Hd Hk]. cbn in Hk.
    apply String.eqb_eq in Hk. subst k. exists wl. split; [reflexivity|exact Hd].
  - apply in_map_iff in Hin. destruct Hin as [[k wl] [Hk Hd]]. cbn in Hk. subst k.
    pose proof (find_none _ _ E _ Hd) as Hf. cbn in Hf.
    rewrite String.eqb_refl in Hf. discriminate.
Qed.

Lemma check_words_spec (wl ws : list string) :
  check_words wl ws
  = match find (fun w => negb (py_in w wl)) ws with
    | Some w => Raise (Warning_unrecognised_word w)
    | None => Ok tt
    end.
Proof.
  induction ws as [|w ws IH]; cbn; [reflexivity|].
  destruct (py_in w wl); cbn; [exact IH|reflexivity].
Qed.

(** C7.  Once the language of the normalized sentence is detected,
    [sanitize_mnemonic] checks the words of the normalized sentence, split
    at the spaces, against the wordlist of that language: if a word is
    absent it raises the unrecognised-word warning naming an absent word
    (the first one), and if every word is a member it returns the words
    joined with single spaces, which is the normalized sentence. *)
Theorem sanitize_mnemonic_spec nfkd (dir : list (string * list string))
    (self : Mnemonic) (words lang : string) :
  detect_language nfkd dir (nfkd words) = Ok lang ->
  exists wl,
    read_wordlist dir lang = Ok wl
    /\ In (lang, wl) dir
    /\ let ws := split_space (nfkd words) in
       ((exists w, In w ws /\ ~ In w wl) ->
        exists w, In w ws /\ ~ In w wl
                  /\ sanitize_mnemonic nfkd dir self words
                     = Raise (Warning_unrecognised_word w))
       /\ ((forall w, In w ws -> In w wl) ->
           sanitize_mnemonic nfkd dir self words = Ok (join_space ws)
           /\ join_space ws = nfkd words).
Proof.
  intros Hdet.
  destruct (read_wordlist_key dir lang (detect_language_in _ _ _ Hdet)) as [wl [Hread Hin]].
  exists wl. split; [exact Hread|]. split; [exact Hin|].
  intros ws.
  assert (Hsan : sanitize_mnemonic nfkd dir self words
    = match find (fun w => negb (py_in w wl)) ws with
      | Some w => Raise (Warning_unrecognised_word w)
      | None => Ok (join_space ws)
      end).
  { unfold sanitize_mnemonic. rewrite Hdet. cbn [bind]. rewrite Hread. cbn [bind].
    rewrite check_words_spec. fold ws.
    destruct (find _ ws); reflexivity. }
  split.
  - intros [w [Hw Hnot]].
    destruct (find (fun w => negb (py_in w wl)) ws) as [w'|] eqn:E.
    + apply find_some in E. destruct E as [Hw' Hneg].
      exists w'. repeat split; [exact Hw'| |exact Hsan].
      apply py_in_false. now destruct (py_in w' wl).
    + pose proof (find_none _ _ E _ Hw) as Hf. cbn in Hf.
      apply py_in_false in Hnot. rewrite Hnot in Hf. discriminate.
  - intros Hall.
    destruct (find (fun w => negb (py_in w wl)) ws) as [w'|] eqn:E.
    + apply find_some in E. destruct E as [Hw' Hneg].
      apply Hall, py_in_spec in Hw'. rewrite Hw' in Hneg. discriminate.
    + split; [exact Hsan|apply join_split_space].
Qed.

Lemma sanitize_mnemonic_spec_witness :
  detect_language nfkd_ascii test_dir (nfkd_ascii "baab zzzz baac") = Ok "lang_b"%string
  /\ exists wl,
       read_wordlist test_dir "lang_b" = Ok wl
       /\ In ("lang_b"%string, wl) test_dir
       /\ let ws := split_space (nfkd_ascii "baab zzzz baac") in
          ((exists w, In w ws /\ ~ In w wl) ->
           exists w, In w ws /\ ~ In w wl
                     /\ sanitize_mnemonic nfkd_ascii test_dir mnemonic_a "baab zzzz baac"
                        = Raise (Warning_unrecognised_word w))
          /\ ((forall w, In w ws -> In w wl) ->
              sanitize_mnemonic nfkd_ascii test_dir mnemonic_a "baab zzzz baac"
              = Ok (join_space ws)
              /\ join_space ws = nfkd_ascii "baab zzzz baac").
Proof.
  split; [vm_compute; reflexivity|].
  apply (@sanitize_mnemonic_spec nfkd_ascii test_dir mnemonic_a "baab zzzz baac" "lang_b").
  vm_compute; reflexivity.
Defined.

Example sanitize_mnemonic_run :
  sanitize_mnemonic nfkd_ascii test_dir mnemonic_a "baab zzzz baac"
  = Raise (Warning_unrecognised_word "zzzz")
  /\ sanitize_mnemonic nfkd_ascii test_dir mnemonic_a "baab baac" = Ok "baab baac"%string.
Proof. split; vm_compute; reflexivity. Qed.

Lemma to_seed_spec_witness :
  sanitize_mnemonic nfkd_ascii test_dir mnemonic_a "aaab aaac" = Ok "aaab aaac"%string
  /\ (let password := bytes_of_string (nfkd_ascii "aaab aaac") in
      let salt := (bytes_of_string "mnemonic" ++ bytes_of_string "TREZOR")%list in
      to_seed nfkd_ascii test_dir mnemonic_a "aaab aaac" "TREZOR"
      = Ok (pbkdf2_hmac_sha512 password salt 2048 64)
      /\ length (pbkdf2_hmac_sha512 password salt 2048 64) = 64).
Proof.
  split; [vm_compute; reflexivity|].
  apply (@to_seed_spec nfkd_ascii test_dir mnemonic_a "aaab aaac" "TREZOR" "aaab aaac").
  vm_compute; reflexivity.
Defined.

(** ** Decoding: the word indices *)

Lemma py_index_from_ok (w : string) (l : list string) (i0 i : N) :
  py_index_from w l i0 = Ok i ->
  (i0 <= i)%N /\ nth_error l (N.to_nat (i - i0)) = Some w.
Proof.
  revert i0. induction l as [|x l IH]; intros i0; cbn; [discriminate|].
  destruct (String.eqb_spec x w) as [->|Hx].
  - intros H. injection H as <-. rewrite N.sub_diag. split; [lia|reflexivity].
  - intros H. apply IH in H. destruct H as [Hle Hnth]. split; [lia|].
    replace (N.to_nat (i - i0)) with (S (N.to_nat (i - (i0 + 1)))) by lia.
    exact Hnth.
Qed.

Lemma py_index_from_raise (w : string) (l : list string) (i0 : N) (e : exn) :
  py_index_from w l i0 = Raise e -> e = ValueError_not_in_list w /\ ~ In w l.
Proof.
  revert i0. induction l as [|x l IH]; intros i0; cbn.
  - intros H. injection H as <-. split; [reflexivity|tauto].
  - destruct (String.eqb_spec x w) as [->|Hx]; [discriminate|].
    intros H. apply IH in H. destruct H as [-> Hnot]. split; [reflexivity|].
    intros [E|Hin]; [congruence|tauto].
Qed.

(** [l.index(w)] is a position of [w] in [l]; it raises only when [w] is
    not in [l]. *)
Lemma py_index_ok (l : list string) (w : string) (i : N) :
  py_index l w = Ok i -> nth_error l (N.to_nat i) = Some w.
Proof.
  unfold py_index. intros H. apply py_index_from_ok in H.
  rewrite N.sub_0_r in H. tauto.
Qed.

Lemma py_index_raise (l : list string) (w : string) (e : exn) :
  py_index l w = Raise e -> e = ValueError_not_in_list w /\ ~ In w l.
Proof. apply py_index_from_raise. Qed.

Lemma mapM_ok {A B : Type} (f : A -> result B) (xs : list A) (ys : list B) :
  mapM f xs = Ok ys -> Forall2 (fun x y => f x = Ok y) xs ys.
Proof.
  revert ys. induction xs as [|x xs IH]; intros ys; cbn.
  - intros H. injection H as <-. constructor.
  - destruct (f x) as [y|e] eqn:E; cbn; [|discriminate].
    destruct (mapM f xs) as [ys'|e]; cbn; [|discriminate].
    intros H. injection H as <-. constructor; [exact E|now apply IH].
Qed.

Lemma mapM_raise {A B : Type} (f : A -> result B) (xs : list A) (e : exn) :
  mapM f xs = Raise e -> exists x, In x xs /\ f x = Raise e.
Proof.
  induction xs as [|x xs IH]; cbn; [discriminate|].
  destruct (f x) as [y|e'] eqn:E; cbn.
  - destruct (mapM f xs) as [ys'|e'']; cbn; [discriminate|].
    intros H. injection H as <-.
    destruct (IH eq_refl) as [x' [Hin Hx']]. exists x'. split; [now right|exact Hx'].
  - intros H. injection H as <-. exists x. split; [now left|exact E].
Qed.

Lemma Forall2_index_in (l ws : list string) (wi : list N) :
  Forall2 (fun w i => py_index l w = Ok i) ws wi -> forall w, In w ws -> In w l.
Proof.
  induction 1 as [|w' i ws' wi' Hi _ IH]; intros w Hw; [contradiction|].
  destruct Hw as [->|Hw]; [|now apply IH].
  apply py_index_ok in Hi. now apply nth_error_In in Hi.
Qed.

(** C5, as the code has it.  After sanitization has resolved the language
    and checked the words against the wordlist of that language,
    [to_entropy] maps each word to its index in the wordlist of the
    instance, whatever language was detected: when every word of the
    sanitized sentence is in the wordlist of the instance, the entropy is
    computed from positions in that wordlist; when a word is not, the lookup
    raises ValueError and nothing is decoded. *)
Theorem to_entropy_instance_wordlist nfkd (dir : list (string * list string))
    (self : Mnemonic) (words s : string) (c : bool) :
  sanitize_mnemonic nfkd dir self words = Ok s ->
  let ws := split_space s in
  ((forall w, In w ws -> In w (_wordlist self)) ->
   exists wi,
     Forall2 (fun w i => nth_error (_wordlist self) (N.to_nat i) = Some w) ws wi
     /\ to_entropy nfkd dir self words c = entropy_of_indices wi c)
  /\ ((exists w, In w ws /\ ~ In w (_wordlist self)) ->
      exists w, In w ws /\ ~ In w (_wordlist self)
                /\ to_entropy nfkd dir self words c = Raise (ValueError_not_in_list w)).
Proof.
  intros Hs ws.
  assert (Hte : to_entropy nfkd dir self words c
    = (wi <- mapM (py_index (_wordlist self)) ws ;; entropy_of_indices wi c)).
  { unfold to_entropy, indices_of_words. rewrite Hs. reflexivity. }
  destruct (mapM (py_index (_wordlist self)) ws) as [wi|e] eqn:E.
  - apply mapM_ok in E. split.
    + intros _. exists wi. split; [|exact Hte].
      eapply Forall2_impl; [|exact E].
      intros w i Hi. now apply py_index_ok.
    + intros [w [Hw Hnot]]. exfalso. apply Hnot.
      exact (@Forall2_index_in _ _ _ E w Hw).
  - apply mapM_raise in E. destruct E as [w [Hw Hraise]].
    pose proof (@py_index_raise _ _ _ Hraise) as [He Hnot].
    split.
    + intros Hall. exfalso. apply Hnot, Hall, Hw.
    + intros _. exists w. repeat split; [exact Hw|exact Hnot|].
      rewrite Hte. cbn [bind]. now rewrite He.
Qed.

Lemma to_entropy_instance_wordlist_witness :
  sanitize_mnemonic nfkd_ascii test_dir mnemonic_a lang_b_sentence
  = Ok lang_b_sentence
  /\ (let ws := split_space lang_b_sentence in
      ((forall w, In w ws -> In w (_wordlist mnemonic_a)) ->
       exists wi,
         Forall2 (fun w i => nth_error (_wordlist mnemonic_a) (N.to_nat i) = Some w) ws wi
         /\ to_entropy nfkd_ascii test_dir mnemonic_a lang_b_sentence true
            = entropy_of_indices wi true)
      /\ ((exists w, In w ws /\ ~ In w (_wordlist mnemonic_a)) ->
          exists w, In w ws /\ ~ In w (_wordlist mnemonic_a)
                    /\ to_entropy nfkd_ascii test_dir mnemonic_a lang_b_sentence true
                       = Raise (ValueError_not_in_list w))).
Proof.
  split; [vm_compute; reflexivity|].
  apply (@to_entropy_instance_wordlist nfkd_ascii test_dir mnemonic_a
           lang_b_sentence lang_b_sentence true).
  vm_compute; reflexivity.
Defined.

(** C5 as stated fails when the instance was made for another language
    than the sentence: the sentence below is the mnemonic of an entropy in
    [lang_b]; it sanitizes, its language is detected, the instance of
    [lang_b] decodes it, and the instance of [lang_a] raises ValueError on
    its first word. *)
Lemma to_entropy_other_language :
  init test_dir "lang_a" = Ok mnemonic_a
  /\ init test_dir "lang_b" = Ok mnemonic_b
  /\ to_mnemonic nfkd_ascii mnemonic_b (unhex "7f7f7f7f7f7f7f7f7f7f7f7f7f7f7f7f") true
     = Ok lang_b_sentence
  /\ detect_language nfkd_ascii test_dir lang_b_sentence = Ok "lang_b"%string
  /\ sanitize_mnemonic nfkd_ascii test_dir mnemonic_a lang_b_sentence
     = Ok lang_b_sentence
  /\ to_entropy nfkd_ascii test_dir mnemonic_b lang_b_sentence true
     = Ok (unhex "7f7f7f7f7f7f7f7f7f7f7f7f7f7f7f7f")
  /\ to_entropy nfkd_ascii test_dir mnemonic_a lang_b_sentence true
     = Raise (ValueError_not_in_list "bdpl").
Proof. repeat split; vm_compute; reflexivity. Qed.

(** ** Decoding: the split and the checksum test *)

Lemma digits_eqb_spec (a b : list N) : reflect (a = b) (digits_eqb a b).
Proof.
  revert b. induction a as [|x a IH]; intros [|y b]; cbn;
    try (constructor; congruence).
  destruct (N.eqb_spec x y) as [->|Hxy]; cbn.
  - destruct (IH b) as [->|Hab]; constructor; congruence.
  - constructor; congruence.
Qed.

Lemma binresult_eq (wi : list N) :
  let ent := digits_to_bytes (change_base wi 2048 256 0 false) in
  change_base (bytes_to_digits ent) 256 2 (length ent * 4) false = sentence_bits wi.
Proof.
  cbv zeta. rewrite change_base_no_pad, change_base_pad.
  rewrite digits_to_bytes_length.
  rewrite digits_bytes_digits by (apply number_digits_lt; lia).
  rewrite number_digits_value by lia. reflexivity.
Qed.

Lemma sentence_bits_value (wi : list N) :
  digits_value 2 (sentence_bits wi) = digits_value 2048 wi.
Proof.
  unfold sentence_bits. rewrite pad_left_value, number_digits_value by lia.
  reflexivity.
Qed.

Lemma sentence_bits_lt (wi : list N) : Forall (fun d => (d < 2)%N) (sentence_bits wi).
Proof.
  unfold sentence_bits. apply pad_left_lt; [lia|]. apply number_digits_lt. lia.
Qed.

(** What [to_entropy] does with the indices, in terms of the bit string. *)
Lemma entropy_of_indices_eq (wi : list N) :
  entropy_of_indices wi true
  = let bits := sentence_bits wi in
    let k := checksum_bits (length bits) in
    let ent := digits_to_bytes (change_base (firstn (length bits - k) bits) 2 256 0 false) in
    let checksum_ := skipn (length bits - k) bits in
    cs <- checksum ent ;;
    if digits_eqb checksum_ cs then Ok ent
    else Raise (Warning_invalid_checksum checksum_ ent).
Proof.
  unfold entropy_of_indices. cbv zeta.
  rewrite (binresult_eq wi). unfold py_slice_to, py_slice_from.
  rewrite py_bound_cut. reflexivity.
Qed.

Lemma entropy_bits_value (wi : list N) :
  let bits := sentence_bits wi in
  let k := checksum_bits (length bits) in
  change_base (firstn (length bits - k) bits) 2 256 0 false
  = number_digits 256 (digits_value 2048 wi / 2 ^ N.of_nat k).
Proof.
  cbv zeta. rewrite change_base_no_pad.
  pose proof (checksum_bits_le (length (sentence_bits wi))) as Hk.
  rewrite digits_value_firstn; [|lia|apply sentence_bits_lt|lia].
  rewrite sentence_bits_value. do 3 f_equal. lia.
Qed.

Lemma checksum_part_value (wi : list N) :
  let bits := sentence_bits wi in
  let k := checksum_bits (length bits) in
  digits_value 2 (skipn (length bits - k) bits)
  = (digits_value 2048 wi mod 2 ^ N.of_nat k)%N.
Proof.
  cbv zeta.
  pose proof (checksum_bits_le (length (sentence_bits wi))) as Hk.
  rewrite digits_value_skipn; [|lia|apply sentence_bits_lt|lia].
  rewrite sentence_bits_value. do 3 f_equal. lia.
Qed.










(** ** Sentences of wordlist words *)

Lemma split_space_aux_word (cur : string -> string) (w s : string) :
  has_space w = false ->
  split_space_aux cur (w ++ s) = split_space_aux (fun t => cur (w ++ t)%string) s.
Proof.
  revert cur. induction w as [|c w IH]; intros cur Hw; cbn [append].
  - reflexivity.
  - cbn [has_space] in Hw. apply orb_false_iff in Hw. destruct Hw as [Hc Hw].
    cbn [split_space_aux]. rewrite Hc.
    exact (IH (fun t => cur (String c t)) Hw).
Qed.

(** Joining words without spaces and splitting again gives the words. *)
Lemma split_join_space (ws : list string) :
  ws <> [] -> Forall (fun w => has_space w = false) ws ->
  split_space (join_space ws) = ws.
Proof.
  intros Hne Hws. unfold split_space.
  induction Hws as [|w ws Hw Hws IH]; [congruence|].
  destruct ws as [|w' ws].
  - cbn [join_space]. rewrite <- (append_nil_r w) at 1.
    rewrite split_space_aux_word by exact Hw. cbn [split_space_aux].
    now rewrite append_nil_r.
  - rewrite join_space_cons by discriminate.
    rewrite split_space_aux_word by exact Hw. cbn [split_space_aux].
    rewrite Ascii.eqb_refl, append_nil_r. f_equal.
    apply IH. discriminate.
Qed.

Lemma distinct_index_from (l : list string) (i : nat) (i0 : N) :
  distinct l = true -> i < length l ->
  py_index_from (nth i l EmptyString) l i0 = Ok (i0 + N.of_nat i)%N.
Proof.
  revert i i0. induction l as [|x l IH]; intros i i0 Hd Hi; cbn in Hi; [lia|].
  cbn [distinct] in Hd. apply andb_true_iff in Hd. destruct Hd as [Hx Hd].
  destruct i as [|i].
  - cbn. rewrite String.eqb_refl. f_equal. lia.
  - cbn [nth py_index_from].
    destruct (String.eqb_spec x (nth i l EmptyString)) as [E|_].
    + exfalso. apply negb_true_iff, py_in_false in Hx. apply Hx.
      rewrite E. apply nth_In. lia.
    + rewrite IH by (assumption || lia). f_equal. lia.
Qed.

Lemma wordlist_ok_parts (wl : list string) :
  wordlist_ok wl = true ->
  length wl = 2048 /\ distinct wl = true
  /\ Forall (fun w => has_space w = false) wl.
Proof.
  unfold wordlist_ok. intros H.
  apply andb_true_iff in H. destruct H as [H Hs].
  apply andb_true_iff in H. destruct H as [Hl Hd].
  apply Nat.eqb_eq in Hl. repeat split; try assumption.
  apply Forall_forall. intros w Hw.
  rewrite forallb_forall in Hs. apply Hs in Hw. now apply negb_true_iff in Hw.
Qed.

Lemma word_at_in (wl : list string) (i : N) :
  length wl = 2048 -> (i < 2048)%N -> In (word_at wl i) wl.
Proof. intros Hl Hi. unfold word_at. apply nth_In. lia. Qed.

(** Indices below 2048 are looked up without an error ... *)
Lemma mapM_getitem_ok (wl : list string) (wi : list N) :
  length wl = 2048 -> Forall (fun i => (i < 2048)%N) wi ->
  mapM (fun i => py_getitem wl (Z.of_N i)) wi = Ok (map (word_at wl) wi).
Proof.
  intros Hl Hwi. induction Hwi as [|i wi Hi _ IH]; [reflexivity|].
  cbn [mapM map]. rewrite IH.
  assert (E : py_getitem wl (Z.of_N i) = Ok (word_at wl i)).
  { unfold py_getitem. cbv zeta. rewrite Hl.
    destruct (Z.ltb_spec (Z.of_N i) 0); [lia|].
    destruct (Z.leb_spec 0 (Z.of_N i)); [|lia].
    destruct (Z.ltb_spec (Z.of_N i) (Z.of_nat 2048)); [|lia].
    cbn [andb]. replace (Z.to_nat (Z.of_N i)) with (N.to_nat i) by lia.
    unfold word_at. rewrite (nth_error_nth' _ EmptyString) by lia. reflexivity. }
  rewrite E. reflexivity.
Qed.

(** ... and in a wordlist of distinct words the words lead back to the
    indices. *)
Lemma mapM_index_ok (wl : list string) (wi : list N) :
  length wl = 2048 -> distinct wl = true -> Forall (fun i => (i < 2048)%N) wi ->
  mapM (py_index wl) (map (word_at wl) wi) = Ok wi.
Proof.
  intros Hl Hd Hwi. induction Hwi as [|i wi Hi _ IH]; [reflexivity|].
  cbn [mapM map]. rewrite IH.
  unfold py_index, word_at. rewrite distinct_index_from by (assumption || lia).
  cbn [bind]. do 2 f_equal. lia.
Qed.

Lemma member_count_le (wl ws : list string) : member_count wl ws <= length ws.
Proof. unfold member_count. apply filter_length_le. Qed.

Lemma member_count_all (wl ws : list string) :
  member_count wl ws = length ws <-> Forall (fun w => In w wl) ws.
Proof.
  unfold member_count. induction ws as [|w ws IH]; cbn [filter length].
  - split; [constructor|reflexivity].
  - destruct (py_in w wl) eqn:E; cbn [length].
    + split.
      * intros H. constructor; [now apply py_in_spec|]. apply IH. lia.
      * intros H. inversion H; subst. f_equal. now apply IH.
    + pose proof (filter_length_le (fun w => py_in w wl) ws) as Hle. split; [lia|].
      intros Hall. inversion Hall as [|? ? Hw _]; subst.
      apply py_in_spec in Hw. congruence.
Qed.

Lemma check_words_ok (wl ws : list string) :
  Forall (fun w => In w wl) ws -> check_words wl ws = Ok tt.
Proof.
  induction 1 as [|w ws Hw _ IH]; [reflexivity|].
  cbn [check_words]. apply py_in_spec in Hw. now rewrite Hw.
Qed.

(** A sentence of words of a registered wordlist, which normalization
    leaves as it is, sanitizes to itself. *)
Lemma sanitize_own_sentence nfkd (dir : list (string * list string))
    (self : Mnemonic) (lang : string) (wl ws : list string) :
  In (lang, wl) dir -> NoDup (map fst dir) ->
  ws <> [] -> Forall (fun w => In w wl) ws ->
  Forall (fun w => has_space w = false) ws ->
  nfkd (join_space ws) = join_space ws ->
  sanitize_mnemonic nfkd dir self (join_space ws) = Ok (join_space ws).
Proof.
  intros Hin Hnd Hne Hws Hsp Hnf.
  assert (Hdir : dir <> []) by (destruct dir; [contradiction|discriminate]).
  unfold sanitize_mnemonic. rewrite Hnf.
  destruct (detect_language_cases nfkd (join_space ws) Hdir Hnd)
    as [lang' [wl' [Hin' [Hmax Hdet]]]].
  rewrite Hnf, split_join_space in Hmax, Hdet by assumption.
  rewrite split_join_space by assumption.
  assert (Hcount : member_count wl' ws = length ws).
  { apply Nat.le_antisymm; [apply member_count_le|].
    rewrite <- (proj2 (member_count_all wl ws) Hws).
    rewrite Forall_forall in Hmax. exact (Hmax (lang, wl) Hin). }
  rewrite Hdet, Hcount.
  destruct (Nat.eqb_spec (length ws) 0) as [Hz|_].
  { destruct ws; [congruence|discriminate]. }
  cbn [bind]. rewrite (@read_wordlist_in _ _ _ Hnd Hin'). cbn [bind].
  rewrite check_words_ok by (now apply member_count_all). reflexivity.
Qed.

(** ** The numbers behind a mnemonic

    For [c] checksum bits, an entropy value [V] of [32 c] bits whose first
    byte is not zero and a checksum value [C], the mnemonic is the number
    [V * 2^c + C]. *)

Lemma pow_2048 (m : nat) : (2048 ^ N.of_nat m = 2 ^ N.of_nat (11 * m))%N.
Proof.
  rewrite Nat2N.inj_mul, N.pow_mul_r. reflexivity.
Qed.

Lemma pow_256_nat (m : nat) : (256 ^ N.of_nat m = 2 ^ N.of_nat (8 * m))%N.
Proof.
  rewrite Nat2N.inj_mul, N.pow_mul_r. reflexivity.
Qed.

Lemma pow2_split (a b : nat) : (2 ^ N.of_nat (a + b) = 2 ^ N.of_nat a * 2 ^ N.of_nat b)%N.
Proof. now rewrite Nat2N.inj_add, N.pow_add_r. Qed.

Lemma pow2_le (a b : nat) : a <= b -> (2 ^ N.of_nat a <= 2 ^ N.of_nat b)%N.
Proof. intros H. apply N.pow_le_mono_r; lia. Qed.

Section MnemonicNumber.
Variables (c : nat) (V C : N).
Hypothesis c_pos : 1 <= c.
Hypothesis V_ge : (2 ^ N.of_nat (32 * c - 8) <= V)%N.
Hypothesis V_lt : (V < 2 ^ N.of_nat (32 * c))%N.
Hypothesis C_lt : (C < 2 ^ N.of_nat c)%N.

Lemma mnemonic_number_lt : (V * 2 ^ N.of_nat c + C < 2 ^ N.of_nat (33 * c))%N.
Proof using c_pos V_ge V_lt C_lt.
  replace (33 * c) with (32 * c + c) by lia. rewrite pow2_split. nia.
Qed.

Lemma mnemonic_number_ge : (2 ^ N.of_nat (33 * c - 8) <= V * 2 ^ N.of_nat c + C)%N.
Proof using c_pos V_ge V_lt C_lt.
  replace (33 * c - 8) with ((32 * c - 8) + c) by lia. rewrite pow2_split. nia.
Qed.

Lemma mnemonic_number_div : ((V * 2 ^ N.of_nat c + C) / 2 ^ N.of_nat c = V)%N.
Proof using c_pos V_ge V_lt C_lt.
  symmetry. apply N.div_unique with (r := C); [exact C_lt|lia].
Qed.

Lemma mnemonic_number_mod : ((V * 2 ^ N.of_nat c + C) mod 2 ^ N.of_nat c = C)%N.
Proof using c_pos V_ge V_lt C_lt.
  symmetry. apply N.mod_unique with (q := V); [exact C_lt|lia].
Qed.

(** The number takes [3 c] digits in base 2048 ... *)
Lemma mnemonic_number_words :
  length (number_digits 2048 (V * 2 ^ N.of_nat c + C)) = 3 * c.
Proof using c_pos V_ge V_lt C_lt.
  apply Nat.le_antisymm.
  - apply number_digits_length_le; [lia|].
    rewrite pow_2048. replace (11 * (3 * c)) with (33 * c) by lia.
    apply mnemonic_number_lt.
  - assert (H : 3 * c - 1 < length (number_digits 2048 (V * 2 ^ N.of_nat c + C)));
      [|lia].
    apply number_digits_length_ge; [lia|].
    rewrite pow_2048.
    apply N.le_trans with (2 ^ N.of_nat (33 * c - 8))%N;
      [apply pow2_le; lia|apply mnemonic_number_ge].
Qed.

(** ... and between [33 c - 7] and [33 c] bits, of which [to_entropy]
    takes the last [c] for the checksum. *)
Lemma mnemonic_number_bits (wi : list N) :
  digits_value 2048 wi = (V * 2 ^ N.of_nat c + C)%N ->
  checksum_bits (length (sentence_bits wi)) = c.
Proof using c_pos V_ge V_lt C_lt.
  intros Hwi. unfold sentence_bits. rewrite Hwi. cbv zeta.
  set (n := (V * 2 ^ N.of_nat c + C)%N).
  assert (HB1 : length (number_digits 2 n) <= 33 * c).
  { apply number_digits_length_le; [lia|apply mnemonic_number_lt]. }
  assert (HB2 : 33 * c - 8 < length (number_digits 2 n)).
  { apply number_digits_length_ge; [lia|apply mnemonic_number_ge]. }
  assert (HL : length (number_digits 256 n) <= 5 * c).
  { apply number_digits_length_le; [lia|].
    rewrite pow_256_nat.
    apply N.lt_le_trans with (2 ^ N.of_nat (33 * c))%N;
      [apply mnemonic_number_lt|apply pow2_le; lia]. }
  rewrite pad_left_length.
  rewrite Nat.max_r by lia.
  unfold checksum_bits. symmetry.
  apply Nat.div_unique with (r := length (number_digits 2 n) + 32 - 33 * c); lia.
Qed.
End MnemonicNumber.

(** ** Encoding and the round trip away from leading zeros *)

Lemma first_byte_digit (E : bytes) :
  hd x00 E <> x00 ->
  exists d l, bytes_to_digits E = d :: l /\ d <> 0%N /\ length l = length E - 1.
Proof.
  destruct E as [|b E]; cbn [hd]; [congruence|]. intros Hb.
  exists (Byte.to_N b), (bytes_to_digits E). repeat split.
  - intros Hz. apply Hb. rewrite <- (byte_of_N_to_N b), Hz. reflexivity.
  - rewrite bytes_to_digits_length. cbn [length]. lia.
Qed.

Section RoundTrip.
Variable nfkd : string -> string.
Variable self : Mnemonic.
Variable E : bytes.
Hypothesis wl_ok : wordlist_ok (_wordlist self) = true.
Hypothesis nfkd_fix :
  forall ws, Forall (fun w => In w (_wordlist self)) ws ->
             nfkd (join_space ws) = join_space ws.
Hypothesis E_len : length E mod 4 = 0.
Hypothesis E_max : length E <= 1024.
Hypothesis E_first : hd x00 E <> x00.
Hypothesis E_raw : to_bytes E = E.

Local Abbreviation c := (checksum_size E).
Local Abbreviation V := (entropy_value E).
Local Abbreviation cs := (entropy_checksum E).
Local Abbreviation C := (checksum_value E).

Lemma entropy_length : length E = 4 * c /\ 1 <= c /\ c <= 256.
Proof.
  unfold checksum_size. pose proof (Nat.div_mod_eq (length E) 4) as H.
  destruct E as [|b E']; [cbn in E_first; congruence|].
  cbn [length] in *. split; [lia|]. split.
  - apply Nat.div_le_lower_bound; lia.
  - apply Nat.Div0.div_le_upper_bound. lia.
Qed.

Lemma entropy_checksum_ok : checksum E = Ok cs /\ length cs = c /\ (C < 2 ^ N.of_nat c)%N.
Proof.
  destruct entropy_length as [Hn [Hc1 Hc2]].
  assert (Hcs : checksum E = Ok cs).
  { rewrite checksum_ok_raw by (exact E_raw || exact E_len). unfold entropy_checksum.
    do 2 f_equal. rewrite Hn. replace (4 * c * 8) with (c * 32) by lia.
    rewrite Nat.div_mul by lia. reflexivity. }
  assert (Hl : length cs = c).
  { unfold entropy_checksum, sha256_bit_string. rewrite length_firstn, bit_string_length. lia. }
  repeat split; [exact Hcs|exact Hl|].
  unfold checksum_value. rewrite <- Hl. apply digits_value_lt; [lia|].
  unfold entropy_checksum. apply Forall_forall. intros x Hx.
  pose proof (bit_string_lt 256 (digits_value 256 (bytes_to_digits (sha256 E)))) as Hb.
  rewrite Forall_forall in Hb. apply Hb.
  fold (sha256_bit_string E).
  rewrite <- (firstn_skipn c (sha256_bit_string E)). apply in_or_app. now left.
Qed.

Lemma entropy_value_bounds :
  (2 ^ N.of_nat (32 * c - 8) <= V)%N /\ (V < 2 ^ N.of_nat (32 * c))%N.
Proof.
  destruct entropy_length as [Hn [Hc1 Hc2]].
  destruct (@first_byte_digit E E_first) as [d [l [Hdl [Hd Hl]]]].
  unfold entropy_value. split.
  - rewrite Hdl.
    pose proof (@digits_value_ge 256 ltac:(lia) d l Hd) as H.
    rewrite pow_256_nat in H. replace (8 * length l) with (32 * c - 8) in H by lia.
    exact H.
  - pose proof (@digits_value_lt 256 ltac:(lia) _ (bytes_to_digits_lt E)) as H.
    rewrite bytes_to_digits_length, pow_256_nat in H.
    replace (8 * length E) with (32 * c) in H by lia. exact H.
Qed.

(** The word indices [to_mnemonic] computes. *)
Lemma to_mnemonic_indices :
  change_base
    (change_base (bytes_to_digits E) 256 2 (length E * 8) false ++ cs) 2 2048 0 false
  = number_digits 2048 (V * 2 ^ N.of_nat c + C).
Proof.
  destruct entropy_checksum_ok as [_ [Hl _]].
  rewrite change_base_no_pad, digits_value_app by lia.
  rewrite change_base_pad, pad_left_value, number_digits_value by lia.
  rewrite Hl. reflexivity.
Qed.

(** Away from a leading zero byte, [to_mnemonic] gives
    [(entropy bits + checksum bits) / 11] words of the wordlist, joined by
    single spaces. *)
Lemma to_mnemonic_words :
  exists wi,
    to_mnemonic nfkd self E true = Ok (join_space (map (word_at (_wordlist self)) wi))
    /\ digits_value 2048 wi = (V * 2 ^ N.of_nat c + C)%N
    /\ Forall (fun i => (i < 2048)%N) wi
    /\ length wi = (8 * length E + 8 * length E / 32) / 11.
Proof.
  destruct (@wordlist_ok_parts _ wl_ok) as [Hwl [Hdist Hsp]].
  destruct entropy_length as [Hn [Hc1 Hc2]].
  destruct entropy_checksum_ok as [Hcs [Hl HC]].
  destruct entropy_value_bounds as [HV1 HV2].
  exists (number_digits 2048 (V * 2 ^ N.of_nat c + C)).
  assert (Hlt : Forall (fun i => (i < 2048)%N)
                  (number_digits 2048 (V * 2 ^ N.of_nat c + C)))
    by (apply number_digits_lt; lia).
  repeat split.
  - unfold to_mnemonic. cbv zeta. rewrite E_raw, Hcs. cbn [bind].
    rewrite to_mnemonic_indices.
    rewrite mapM_getitem_ok by assumption. cbn [bind].
    rewrite nfkd_fix; [reflexivity|].
    apply Forall_forall. intros w Hw. apply in_map_iff in Hw.
    destruct Hw as [i [<- Hi]]. rewrite Forall_forall in Hlt.
    apply word_at_in; [assumption|]. now apply Hlt.
  - apply number_digits_value. lia.
  - exact Hlt.
  - rewrite (@mnemonic_number_words c V C Hc1 HV1 HV2 HC).
    rewrite Hn. replace (8 * (4 * c) + 8 * (4 * c) / 32) with (3 * c * 11).
    + now rewrite Nat.div_mul by lia.
    + replace (8 * (4 * c)) with (c * 32) by lia. rewrite Nat.div_mul by lia. lia.
Qed.

(** Decoding the indices of the mnemonic gives the entropy back. *)
Lemma entropy_of_mnemonic_indices (wi : list N) :
  digits_value 2048 wi = (V * 2 ^ N.of_nat c + C)%N ->
  entropy_of_indices wi true = Ok E.
Proof.
  intros Hwi.
  destruct entropy_length as [Hn [Hc1 Hc2]].
  destruct entropy_checksum_ok as [Hcs [Hl HC]].
  destruct entropy_value_bounds as [HV1 HV2].
  pose proof (@mnemonic_number_bits c V C Hc1 HV1 HV2 HC wi Hwi) as Hk.
  rewrite entropy_of_indices_eq. cbv zeta.
  rewrite (entropy_bits_value wi). rewrite Hk, Hwi.
  rewrite (@mnemonic_number_div c V C Hc1 HV1 HV2 HC).
  destruct (@first_byte_digit E E_first) as [d [l [Hdl [Hd _]]]].
  assert (Hent : digits_to_bytes (number_digits 256 V) = E).
  { unfold entropy_value. rewrite Hdl.
    rewrite number_digits_canonical; [|lia|exact Hd|rewrite <- Hdl; apply bytes_to_digits_lt].
    rewrite <- Hdl. apply bytes_digits_bytes. }
  rewrite Hent, Hcs. cbn [bind].
  assert (Hsame : skipn (length (sentence_bits wi) - c) (sentence_bits wi) = cs).
  { pose proof (checksum_bits_le (length (sentence_bits wi))) as Hle. rewrite Hk in Hle.
    apply digits_value_inj with (b := 2%N); [lia| | | |].
    - rewrite length_skipn, Hl. lia.
    - apply Forall_forall. intros x Hx.
      pose proof (sentence_bits_lt wi) as Hb. rewrite Forall_forall in Hb. apply Hb.
      rewrite <- (firstn_skipn (length (sentence_bits wi) - c) (sentence_bits wi)).
      apply in_or_app. now right.
    - unfold entropy_checksum. apply Forall_forall. intros x Hx.
      pose proof (bit_string_lt 256 (digits_value 256 (bytes_to_digits (sha256 E)))) as Hb.
      rewrite Forall_forall in Hb. apply Hb. fold (sha256_bit_string E).
      rewrite <- (firstn_skipn c (sha256_bit_string E)). apply in_or_app. now left.
    - pose proof (checksum_part_value wi) as Hv. cbv zeta in Hv.
      rewrite Hk, Hwi in Hv. rewrite Hv.
      apply (@mnemonic_number_mod c V C Hc1 HV1 HV2 HC). }
  rewrite Hsame.
  destruct (digits_eqb_spec cs cs); [reflexivity|congruence].
Qed.

(** The round trip: away from a leading zero byte, the mnemonic of an
    entropy decodes to that entropy, in an instance whose wordlist is in the
    directory. *)
Lemma roundtrip_first_byte_nonzero (dir : list (string * list string)) (lang : string) :
  In (lang, _wordlist self) dir -> NoDup (map fst dir) ->
  exists s,
    to_mnemonic nfkd self E true = Ok s
    /\ length (split_space s) = (8 * length E + 8 * length E / 32) / 11
    /\ Forall (fun w => In w (_wordlist self)) (split_space s)
    /\ to_entropy nfkd dir self s true = Ok E.
Proof.
  intros Hin Hnd.
  destruct (@wordlist_ok_parts _ wl_ok) as [Hwl [Hdist Hsp]].
  destruct entropy_length as [Hn [Hc1 Hc2]].
  destruct to_mnemonic_words as [wi [Hm [Hval [Hlt Hlen]]]].
  set (ws := map (word_at (_wordlist self)) wi) in *.
  assert (Hws : Forall (fun w => In w (_wordlist self)) ws).
  { apply Forall_forall. intros w Hw. apply in_map_iff in Hw.
    destruct Hw as [i [<- Hi]]. rewrite Forall_forall in Hlt.
    apply word_at_in; [assumption|]. now apply Hlt. }
  assert (Hne : ws <> []).
  { intros Hnil. apply (f_equal (@length string)) in Hnil.
    unfold ws in Hnil. rewrite length_map, Hlen in Hnil. cbn [length] in Hnil.
    rewrite Hn in Hnil.
    replace (8 * (4 * c)) with (c * 32) in Hnil by lia.
    rewrite Nat.div_mul in Hnil by lia.
    assert (1 <= (c * 32 + c) / 11); [|lia].
    apply Nat.div_le_lower_bound; lia. }
  assert (Hns : Forall (fun w => has_space w = false) ws).
  { rewrite Forall_forall in Hws, Hsp |- *. intros w Hw. apply Hsp, Hws, Hw. }
  assert (Hsplit : split_space (join_space ws) = ws) by (now apply split_join_space).
  exists (join_space ws). rewrite Hsplit. repeat split.
  - exact Hm.
  - unfold ws. now rewrite length_map.
  - exact Hws.
  - unfold to_entropy, indices_of_words.
    rewrite (@sanitize_own_sentence nfkd dir self lang _ ws Hin Hnd Hne Hws Hns (nfkd_fix Hws)).
    cbn [bind]. rewrite Hsplit. unfold ws.
    rewrite mapM_index_ok by assumption. cbn [bind].
    now apply entropy_of_mnemonic_indices.
Qed.
End RoundTrip.

Lemma wordlist_a_ok : wordlist_ok wordlist_a = true.
Proof. vm_compute. reflexivity. Qed.

Example roundtrip_run :
  exists s,
    to_mnemonic nfkd_ascii mnemonic_a (unhex "7f7f7f7f7f7f7f7f7f7f7f7f7f7f7f7f") true = Ok s
    /\ length (split_space s) = 12
    /\ Forall (fun w => In w (_wordlist mnemonic_a)) (split_space s)
    /\ to_entropy nfkd_ascii test_dir mnemonic_a s true
       = Ok (unhex "7f7f7f7f7f7f7f7f7f7f7f7f7f7f7f7f").
Proof.
  apply (@roundtrip_first_byte_nonzero nfkd_ascii mnemonic_a
           (unhex "7f7f7f7f7f7f7f7f7f7f7f7f7f7f7f7f") wordlist_a_ok
           (fun ws _ => eq_refl) eq_refl ltac:(vm_compute; lia) ltac:(vm_compute; discriminate)
           ltac:(vm_compute; reflexivity)
           test_dir "lang_a").
  - left. reflexivity.
  - exact test_dir_no_dup.
Qed.

(** ** Decoding with a checksum: the split and the test *)







(** ** At leading zeros *)

(** C1 at a failing input: the 16 bytes [00 ff ... ff] encode to twelve
    words, and decoding these raises the length error of [checksum]: the
    entropy bits re-based to bytes lose the leading zero byte, and the 15
    bytes left are not a multiple of 4. *)
Lemma roundtrip_leading_zero_byte :
  length (unhex "00ffffffffffffffffffffffffffffff") = 16
  /\ to_mnemonic nfkd_ascii mnemonic_a (unhex "00ffffffffffffffffffffffffffffff") true
     = Ok "aaah ahpp ahpp ahpp ahpp ahpp ahpp ahpp ahpp ahpp ahpp ahpk"%string
  /\ to_entropy nfkd_ascii test_dir mnemonic_a
       "aaah ahpp ahpp ahpp ahpp ahpp ahpp ahpp ahpp ahpp ahpp ahpk" true
     = Raise (ValueError_data_length 15)
  /\ to_entropy nfkd_ascii test_dir mnemonic_a
       "aaah ahpp ahpp ahpp ahpp ahpp ahpp ahpp ahpp ahpp ahpp ahpk" true
     <> Ok (unhex "00ffffffffffffffffffffffffffffff").
Proof.
  repeat split; try (vm_compute; reflexivity). vm_compute. discriminate.
Qed.

(** * Further properties of the class *)

(** ** Loading a wordlist *)


(** ** The language [max] picks *)

Lemma max_from_split (d pre mid : dict) (bk : string) (bv : nat) :
  Forall (fun e => snd e < bv) pre -> Forall (fun e => snd e <= bv) mid ->
  exists pre' v post,
    pre ++ (bk, bv) :: mid ++ d = pre' ++ (max_from d (bk, bv), v) :: post
    /\ Forall (fun e => snd e < v) pre' /\ Forall (fun e => snd e <= v) post.
Proof.
  revert pre mid bk bv. induction d as [|[k v] d IH]; intros pre mid bk bv Hpre Hmid.
  - exists pre, bv, mid. rewrite app_nil_r. cbn [max_from fst]. auto.
  - cbn [max_from snd]. destruct (Nat.ltb_spec bv v) as [Hlt|Hge].
    + destruct (IH (pre ++ (bk, bv) :: mid) [] k v) as [pre' [m [post [E [H1 H2]]]]].
      * apply Forall_app. split.
        -- eapply Forall_impl; [|exact Hpre]. cbn. intros; lia.
        -- constructor; [cbn; lia|].
           eapply Forall_impl; [|exact Hmid]. cbn. intros; lia.
      * constructor.
      * exists pre', m, post. split; [|auto].
        rewrite <- E. cbn [app]. rewrite <- app_assoc. reflexivity.
    + destruct (IH pre (mid ++ [(k, v)]) bk bv) as [pre' [m [post [E [H1 H2]]]]].
      * exact Hpre.
      * apply Forall_app. split; [exact Hmid|]. constructor; [cbn; lia|constructor].
      * exists pre', m, post. split; [|auto].
        rewrite <- E. rewrite <- app_assoc. reflexivity.
Qed.

(** X2.  Among the languages whose wordlists contain the largest number of
    the words, [detect_language] returns the first in the order of the
    directory: every language before it has a strictly smaller count, every
    language after it a count that is not larger. *)
Theorem detect_language_first_max nfkd (dir : list (string * list string))
    (words lang : string) :
  NoDup (map fst dir) ->
  detect_language nfkd dir words = Ok lang ->
  let ws := split_space (nfkd words) in
  exists before wl after,
    dir = before ++ (lang, wl) :: after
    /\ 0 < member_count wl ws
    /\ Forall (fun fn => member_count (snd fn) ws < member_count wl ws) before
    /\ Forall (fun fn => member_count (snd fn) ws <= member_count wl ws) after.
Proof.
  intros Hnd Hdet ws. unfold detect_language in Hdet. fold ws in Hdet.
  rewrite (@wlcount_fold ws dir []) in Hdet by exact Hnd. cbn [app] in Hdet.
  set (f := fun fn : string * list string => (fst fn, member_count (snd fn) ws)) in *.
  assert (Hkeys : map fst (map f dir) = map fst dir).
  { rewrite map_map. reflexivity. }
  destruct dir as [|fn dir']; [discriminate|].
  cbn [map py_max_key bind] in Hdet.
  destruct (@max_from_split (map f dir') [] [] (fst (f fn)) (snd (f fn)))
    as [pre' [m [post [E [Hpre Hpost]]]]]; [constructor|constructor|].
  cbn [app] in E. rewrite <- surjective_pairing in E.
  set (res := max_from (map f dir') (f fn)) in *.
  change (f fn :: map f dir') with (map f (fn :: dir')) in E, Hdet.
  assert (Hget : dict_get (map f (fn :: dir')) res = m).
  { apply dict_get_in; [rewrite Hkeys; exact Hnd|].
    rewrite E. apply in_or_app. right. now left. }
  rewrite Hget in Hdet.
  destruct (Nat.eqb_spec m 0) as [Hz|Hnz]; [discriminate|].
  apply Ok_inj in Hdet.
  apply map_eq_app in E. destruct E as [before [rest [Hdir [Hbefore Hrest]]]].
  apply map_eq_cons in Hrest. destruct Hrest as [[l wl] [after [Hr [Hf Hafter]]]].
  unfold f in Hf. cbn [fst snd] in Hf. injection Hf as Hl Hm.
  exists before, wl, after. subst rest l m. rewrite <- Hdet.
  repeat split.
  - exact Hdir.
  - lia.
  - rewrite <- Hbefore in Hpre. apply Forall_map in Hpre. exact Hpre.
  - rewrite <- Hafter in Hpost. apply Forall_map in Hpost. exact Hpost.
Qed.

Lemma detect_language_first_max_witness :
  NoDup (map fst test_dir)
  /\ detect_language nfkd_ascii test_dir "baab aaab" = Ok "lang_a"%string
  /\ (let ws := split_space (nfkd_ascii "baab aaab") in
      exists before wl after,
        test_dir = before ++ ("lang_a"%string, wl) :: after
        /\ 0 < member_count wl ws
        /\ Forall (fun fn => member_count (snd fn) ws < member_count wl ws) before
        /\ Forall (fun fn => member_count (snd fn) ws <= member_count wl ws) after).
Proof.
  split; [exact test_dir_no_dup|]. split; [vm_compute; reflexivity|].
  apply (@detect_language_first_max nfkd_ascii test_dir "baab aaab" "lang_a").
  - exact test_dir_no_dup.
  - vm_compute. reflexivity.
Defined.

(** X3.  A language [detect_language] returns can be loaded: the
    constructor succeeds for it, with a wordlist of the directory. *)
Theorem detected_language_loads nfkd (dir : list (string * list string))
    (words lang : string) :
  detect_language nfkd dir words = Ok lang ->
  exists self, init dir lang = Ok self /\ In (lang, wordlist self) dir.
Proof.
  intros Hdet. apply detect_language_in in Hdet.
  destruct (@read_wordlist_key dir lang Hdet) as [wl [Hread Hin]].
  exists {| _wordlist := wl |}. split; [|exact Hin].
  unfold init. rewrite Hread. reflexivity.
Qed.

Lemma detected_language_loads_witness :
  detect_language nfkd_ascii test_dir "baab zzzz" = Ok "lang_b"%string
  /\ exists self, init test_dir "lang_b" = Ok self /\ In ("lang_b"%string, wordlist self) test_dir.
Proof.
  split; [vm_compute; reflexivity|].
  apply (@detected_language_loads nfkd_ascii test_dir "baab zzzz" "lang_b").
  vm_compute. reflexivity.
Defined.

(** ** What sanitizing keeps and how it fails *)


(** ** What sanitizing keeps and how it fails *)

Lemma dict_set_nonempty (d : dict) (k : string) (v : nat) : dict_set d k v <> [].
Proof.
  destruct d as [|[k' v'] d]; cbn; [discriminate|].
  destruct (String.eqb k' k); discriminate.
Qed.

Lemma wlcount_nonempty (ws : list string) (dir : list (string * list string)) (d0 : dict) :
  d0 <> [] ->
  fold_left
    (fun wlcount (fn : string * list string) =>
       let (language, wordlist) := fn in
       dict_set wlcount language (count_members wordlist ws)) dir d0 <> [].
Proof.
  revert d0. induction dir as [|[l wl] dir IH]; intros d0 H0; cbn [fold_left].
  - exact H0.
  - apply IH, dict_set_nonempty.
Qed.

(** [detect_language] raises the language warning, or the error of [max]
    on an empty directory. *)
Lemma detect_language_raise nfkd (dir : list (string * list string)) (words : string)
    (e : exn) :
  detect_language nfkd dir words = Raise e ->
  (dir = [] /\ e = ValueError_max_empty)
  \/ e = Warning_language (split_space (nfkd words)).
Proof.
  unfold detect_language.
  match goal with |- context [py_max_key ?x] => set (d := x) end.
  destruct d as [|kv d'] eqn:Ed; cbn [py_max_key bind].
  - intros H. injection H as <-. left. split; [|reflexivity].
    destruct dir as [|[l wl] dir']; [reflexivity|].
    exfalso. unfold d in Ed. cbn [fold_left] in Ed.
    revert Ed. apply wlcount_nonempty, dict_set_nonempty.
  - destruct (Nat.eqb _ 0); [|discriminate].
    intros H. injection H as <-. now right.
Qed.

(** What [sanitize_mnemonic] does once the wordlist is read. *)
Lemma sanitize_mnemonic_find nfkd (dir : list (string * list string))
    (self : Mnemonic) (words lang : string) (wl : list string) :
  detect_language nfkd dir (nfkd words) = Ok lang ->
  read_wordlist dir lang = Ok wl ->
  sanitize_mnemonic nfkd dir self words
  = match find (fun w => negb (py_in w wl)) (split_space (nfkd words)) with
    | Some w => Raise (Warning_unrecognised_word w)
    | None => Ok (nfkd words)
    end.
Proof.
  intros Hdet Hread. unfold sanitize_mnemonic. rewrite Hdet. cbn [bind].
  rewrite Hread. cbn [bind]. rewrite check_words_spec.
  destruct (find _ _); cbn [bind]; [reflexivity|].
  now rewrite join_split_space.
Qed.

Lemma sanitize_mnemonic_ok nfkd (dir : list (string * list string))
    (self : Mnemonic) (words s : string) :
  sanitize_mnemonic nfkd dir self words = Ok s ->
  s = nfkd words
  /\ exists lang wl,
       detect_language nfkd dir (nfkd words) = Ok lang
       /\ read_wordlist dir lang = Ok wl
       /\ Forall (fun w => In w wl) (split_space s).
Proof.
  intros Hs.
  destruct (detect_language nfkd dir (nfkd words)) as [lang|e] eqn:Hdet;
    [|unfold sanitize_mnemonic in Hs; rewrite Hdet in Hs; discriminate].
  destruct (@read_wordlist_key dir lang (detect_language_in _ _ _ Hdet)) as [wl [Hread _]].
  rewrite (@sanitize_mnemonic_find nfkd dir self words lang wl Hdet Hread) in Hs.
  destruct (find (fun w => negb (py_in w wl)) (split_space (nfkd words))) as [w|] eqn:E;
    [discriminate|].
  apply Ok_inj in Hs. subst s.
  split; [reflexivity|]. exists lang, wl. repeat split; [exact Hread|].
  apply Forall_forall. intros w Hw.
  pose proof (find_none _ _ E _ Hw) as Hf. cbn beta in Hf.
  apply py_in_spec. now destruct (py_in w wl).
Qed.

Lemma sanitize_mnemonic_again nfkd (dir : list (string * list string))
    (self self' : Mnemonic) (words s : string) :
  (forall t, nfkd (nfkd t) = nfkd t) ->
  sanitize_mnemonic nfkd dir self words = Ok s ->
  sanitize_mnemonic nfkd dir self' s = Ok s.
Proof.
  intros Hidem Hs.
  destruct (sanitize_mnemonic_ok _ _ _ _ Hs) as [Hn _].
  subst s. unfold sanitize_mnemonic in Hs |- *. rewrite Hidem. exact Hs.
Qed.

(** X4.  A sentence that sanitizes is returned normalized, and each of its
    words is in the wordlist of the language detected for it. *)
Theorem sanitize_mnemonic_words nfkd (dir : list (string * list string))
    (self : Mnemonic) (words s : string) :
  sanitize_mnemonic nfkd dir self words = Ok s ->
  s = nfkd words
  /\ exists lang wl,
       detect_language nfkd dir (nfkd words) = Ok lang
       /\ read_wordlist dir lang = Ok wl
       /\ Forall (fun w => In w wl) (split_space s).
Proof. apply sanitize_mnemonic_ok. Qed.

Lemma sanitize_mnemonic_words_witness :
  "baab baac"%string = nfkd_ascii "baab baac"
  /\ exists lang wl,
       detect_language nfkd_ascii test_dir (nfkd_ascii "baab baac") = Ok lang
       /\ read_wordlist test_dir lang = Ok wl
       /\ Forall (fun w => In w wl) (split_space "baab baac").
Proof.
  apply (@sanitize_mnemonic_words nfkd_ascii test_dir mnemonic_a "baab baac" "baab baac").
  vm_compute. reflexivity.
Defined.

(** X5.  [sanitize_mnemonic] fails in three ways only: with the language
    warning, with the unrecognised-word warning for a word of the normalized
    sentence that the wordlist of the detected language lacks, or, when the
    directory holds no wordlist, with the error of [max]; opening the
    wordlist of the detected language never fails. *)
Theorem sanitize_mnemonic_raises nfkd (dir : list (string * list string))
    (self : Mnemonic) (words : string) (e : exn) :
  sanitize_mnemonic nfkd dir self words = Raise e ->
  (dir = [] /\ e = ValueError_max_empty)
  \/ e = Warning_language (split_space (nfkd (nfkd words)))
  \/ (exists lang wl w,
        detect_language nfkd dir (nfkd words) = Ok lang
        /\ In (lang, wl) dir
        /\ In w (split_space (nfkd words)) /\ ~ In w wl
        /\ e = Warning_unrecognised_word w).
Proof.
  intros Hs.
  destruct (detect_language nfkd dir (nfkd words)) as [lang|e'] eqn:Hdet.
  - destruct (@read_wordlist_key dir lang (detect_language_in _ _ _ Hdet))
      as [wl [Hread Hin]].
    rewrite (@sanitize_mnemonic_find nfkd dir self words lang wl Hdet Hread) in Hs.
    destruct (find (fun w => negb (py_in w wl)) (split_space (nfkd words))) as [w|] eqn:E;
      [|discriminate].
    injection Hs as <-. right. right.
    apply find_some in E. destruct E as [Hw Hnot].
    exists lang, wl, w. repeat split; try assumption.
    apply py_in_false. now destruct (py_in w wl).
  - unfold sanitize_mnemonic in Hs. rewrite Hdet in Hs. cbn [bind] in Hs.
    injection Hs as <-. apply detect_language_raise in Hdet. tauto.
Qed.

Lemma sanitize_mnemonic_raises_witness :
  (test_dir = [] /\ Warning_unrecognised_word "zzzz" = ValueError_max_empty)
  \/ Warning_unrecognised_word "zzzz"
     = Warning_language (split_space (nfkd_ascii (nfkd_ascii "baab zzzz")))
  \/ (exists lang wl w,
        detect_language nfkd_ascii test_dir (nfkd_ascii "baab zzzz") = Ok lang
        /\ In (lang, wl) test_dir
        /\ In w (split_space (nfkd_ascii "baab zzzz")) /\ ~ In w wl
        /\ Warning_unrecognised_word "zzzz" = Warning_unrecognised_word w).
Proof.
  apply (@sanitize_mnemonic_raises nfkd_ascii test_dir mnemonic_a "baab zzzz").
  vm_compute. reflexivity.
Defined.

(** X6.  With a normalization that is idempotent, as NFKD is, a sanitized
    sentence sanitizes to itself, in whatever instance. *)
Theorem sanitize_mnemonic_idempotent nfkd (dir : list (string * list string))
    (self self' : Mnemonic) (words s : string) :
  (forall t, nfkd (nfkd t) = nfkd t) ->
  sanitize_mnemonic nfkd dir self words = Ok s ->
  sanitize_mnemonic nfkd dir self' s = Ok s.
Proof. apply sanitize_mnemonic_again. Qed.

Lemma sanitize_mnemonic_idempotent_witness :
  sanitize_mnemonic nfkd_ascii test_dir mnemonic_b "baab baac" = Ok "baab baac"%string.
Proof.
  apply (@sanitize_mnemonic_idempotent nfkd_ascii test_dir mnemonic_a mnemonic_b
           "baab baac" "baab baac"); [reflexivity|vm_compute; reflexivity].
Defined.

(** ** The seed of a sentence *)

(** X7.  [to_seed] fails exactly when sanitizing the sentence fails, with
    the same exception; and, the normalization being idempotent, the seed of
    a sentence that sanitizes is the seed of its sanitized form, in whatever
    instance. *)
Theorem to_seed_sanitized nfkd (dir : list (string * list string))
    (self self' : Mnemonic) (words passphrase : string) :
  (forall t, nfkd (nfkd t) = nfkd t) ->
  (forall e, to_seed nfkd dir self words passphrase = Raise e
             <-> sanitize_mnemonic nfkd dir self words = Raise e)
  /\ (forall s, sanitize_mnemonic nfkd dir self words = Ok s ->
                to_seed nfkd dir self words passphrase
                = to_seed nfkd dir self' s passphrase).
Proof.
  intros Hidem. split.
  - intros e. unfold to_seed.
    destruct (sanitize_mnemonic nfkd dir self words); cbn [bind];
      split; intros H; congruence.
  - intros s Hs.
    pose proof (@sanitize_mnemonic_again nfkd dir self self' words s Hidem Hs) as Hs'.
    unfold to_seed. rewrite Hs, Hs'. reflexivity.
Qed.

Lemma to_seed_sanitized_witness :
  (forall e, to_seed nfkd_ascii test_dir mnemonic_a "baab baac" "TREZOR" = Raise e
             <-> sanitize_mnemonic nfkd_ascii test_dir mnemonic_a "baab baac" = Raise e)
  /\ (forall s, sanitize_mnemonic nfkd_ascii test_dir mnemonic_a "baab baac" = Ok s ->
                to_seed nfkd_ascii test_dir mnemonic_a "baab baac" "TREZOR"
                = to_seed nfkd_ascii test_dir mnemonic_b s "TREZOR").
Proof.
  apply (@to_seed_sanitized nfkd_ascii test_dir mnemonic_a mnemonic_b "baab baac" "TREZOR").
  reflexivity.
Defined.

(** ** Sentences that are accepted, and the empty directory *)

(** X17.  A sentence whose normalized words are all in one wordlist of the
    directory sanitizes to its normalized form, whichever language is
    detected for it: a detected language counts no fewer of the words, so it
    has them all. *)
Theorem sanitize_mnemonic_accepts nfkd (dir : list (string * list string))
    (self : Mnemonic) (lang : string) (wl : list string) (words : string) :
  (forall t, nfkd (nfkd t) = nfkd t) ->
  NoDup (map fst dir) -> In (lang, wl) dir ->
  Forall (fun w => In w wl) (split_space (nfkd words)) ->
  sanitize_mnemonic nfkd dir self words = Ok (nfkd words).
Proof.
  intros Hidem Hnd Hin Hws.
  assert (Hdir : dir <> []) by (destruct dir; [contradiction|discriminate]).
  destruct (detect_language_cases nfkd (nfkd words) Hdir Hnd)
    as [lang' [wl' [Hin' [Hmax Hdet]]]].
  cbv zeta in Hmax, Hdet. rewrite Hidem in Hmax, Hdet.
  set (ws := split_space (nfkd words)) in *.
  assert (Hcount : member_count wl' ws = length ws).
  { apply Nat.le_antisymm; [apply member_count_le|].
    rewrite <- (proj2 (member_count_all wl ws) Hws).
    rewrite Forall_forall in Hmax. exact (Hmax (lang, wl) Hin). }
  assert (Hpos : length ws <> 0).
  { unfold ws, split_space.
    pose proof (split_space_aux_nonempty (fun t => t) (nfkd words)) as Hne.
    destruct (split_space_aux (fun t => t) (nfkd words)); [congruence|discriminate]. }
  rewrite Hcount in Hdet.
  destruct (Nat.eqb_spec (length ws) 0) as [Hz|_]; [contradiction|].
  rewrite (@sanitize_mnemonic_find nfkd dir self words lang' wl' Hdet
             (@read_wordlist_in _ _ _ Hnd Hin')).
  fold ws.
  destruct (find (fun w => negb (py_in w wl')) ws) as [w|] eqn:E; [|reflexivity].
  apply find_some in E. destruct E as [Hw Hnot].
  apply member_count_all in Hcount. rewrite Forall_forall in Hcount.
  apply Hcount, py_in_spec in Hw. rewrite Hw in Hnot. discriminate.
Qed.

Lemma sanitize_mnemonic_accepts_witness :
  sanitize_mnemonic nfkd_ascii test_dir mnemonic_a "baab baac" = Ok (nfkd_ascii "baab baac").
Proof.
  apply (@sanitize_mnemonic_accepts nfkd_ascii test_dir mnemonic_a "lang_b" wordlist_b
           "baab baac").
  - reflexivity.
  - exact test_dir_no_dup.
  - right. left. reflexivity.
  - apply member_count_all. vm_compute. reflexivity.
Defined.

(** X18.  [detect_language] fails with the error of [max] exactly when the
    directory holds no wordlist; with a directory that is not empty its only
    failure is the language warning. *)
Theorem detect_language_empty_directory nfkd (dir : list (string * list string))
    (words : string) :
  (detect_language nfkd dir words = Raise ValueError_max_empty <-> dir = [])
  /\ (forall e, dir <> [] -> detect_language nfkd dir words = Raise e ->
                e = Warning_language (split_space (nfkd words))).
Proof.
  split; [split|].
  - intros H. apply detect_language_raise in H.
    destruct H as [[Hd _]|He]; [exact Hd|discriminate].
  - intros ->. reflexivity.
  - intros e Hne H. apply detect_language_raise in H.
    destruct H as [[Hd _]|He]; [contradiction|exact He].
Qed.

(** ** The checksum bits *)

Lemma mod_4_double (a b : nat) : a = 2 * b -> b mod 4 = 0 -> a mod 4 = 0.
Proof.
  intros -> Hb. pose proof (Nat.div_mod_eq b 4) as E. rewrite Hb in E.
  replace (2 * b) with ((2 * (b / 4)) * 4) by lia. apply Nat.Div0.mod_mul.
Qed.

(** X8.  [checksum] returns only for data that, read by [to_bytes], is a
    multiple of four bytes long; the result consists of bits, one for every
    four of these bytes, and never more than the 256 bits of the hash: the
    slice of the bit string ends with the string. *)
Theorem checksum_result_bits (data : bytes) (cs : list N) :
  checksum data = Ok cs ->
  let d := to_bytes data in
  length d mod 4 = 0
  /\ length cs = Nat.min (length d / 4) 256
  /\ Forall (fun b => b = 0%N \/ b = 1%N) cs.
Proof.
  intros Hcs d.
  assert (Hlen : length d mod 4 = 0).
  { destruct (checksum_cases data) as [[Hz _]|[_ Hr]]; [exact Hz|].
    rewrite Hr in Hcs. discriminate. }
  split; [exact Hlen|]. split.
  - rewrite (checksum_length _ Hcs). fold d. f_equal.
    replace 32 with (8 * 4) by reflexivity.
    rewrite Nat.mul_comm, Nat.Div0.div_mul_cancel_l by lia. reflexivity.
  - rewrite checksum_ok in Hcs by exact Hlen. apply Ok_inj in Hcs. subst cs. fold d.
    apply Forall_forall. intros x Hx.
    pose proof (bit_string_lt 256 (digits_value 256 (bytes_to_digits (sha256 d)))) as Hb.
    rewrite Forall_forall in Hb.
    assert (Hlt : (x < 2)%N).
    { apply Hb. fold (sha256_bit_string d).
      rewrite <- (firstn_skipn (length d * 8 / 32) (sha256_bit_string d)).
      apply in_or_app. now left. }
    lia.
Qed.

Lemma checksum_result_bits_witness :
  let d := to_bytes (bytes_of_string "abcdabcd") in
  length d mod 4 = 0
  /\ length [0%N] = Nat.min (length d / 4) 256
  /\ Forall (fun b => b = 0%N \/ b = 1%N) [0%N].
Proof.
  apply (@checksum_result_bits (bytes_of_string "abcdabcd") [0%N]).
  vm_compute. reflexivity.
Defined.

(** ** The sentence of an entropy *)

(** With a wordlist of 2048 entries every index [to_mnemonic] computes has
    its word. *)
Lemma to_mnemonic_of_number (nfkd : string -> string) (self : Mnemonic) (n : N) :
  length (_wordlist self) = 2048 ->
  (ws <- mapM (fun i => py_getitem (_wordlist self) (Z.of_N i)) (number_digits 2048 n) ;;
   Ok (nfkd (join_space ws)))
  = Ok (nfkd (join_space (map (word_at (_wordlist self)) (number_digits 2048 n)))).
Proof.
  intros Hwl. rewrite mapM_getitem_ok; [reflexivity|exact Hwl|].
  apply number_digits_lt. lia.
Qed.

Lemma to_mnemonic_checksum nfkd (self : Mnemonic) (data : bytes) (cs : list N) :
  length (_wordlist self) = 2048 ->
  checksum (to_bytes data) = Ok cs ->
  to_mnemonic nfkd self data true
  = Ok (nfkd (join_space
          (map (word_at (_wordlist self))
             (number_digits 2048
                (entropy_value (to_bytes data) * 2 ^ N.of_nat (length cs)
                 + digits_value 2 cs))))).
Proof.
  intros Hwl Hcs. unfold to_mnemonic. cbv zeta. rewrite Hcs. cbn [bind].
  rewrite change_base_no_pad, digits_value_app by lia.
  rewrite change_base_pad, pad_left_value, number_digits_value by lia.
  apply to_mnemonic_of_number. exact Hwl.
Qed.

Lemma to_mnemonic_plain nfkd (self : Mnemonic) (data : bytes) :
  length (_wordlist self) = 2048 ->
  to_mnemonic nfkd self data false
  = Ok (nfkd (join_space
          (map (word_at (_wordlist self))
             (number_digits 2048 (entropy_value (to_bytes data)))))).
Proof.
  intros Hwl. unfold to_mnemonic. cbv zeta. cbn [bind].
  rewrite change_base_no_pad. apply to_mnemonic_of_number. exact Hwl.
Qed.

(** X9.  With a wordlist of 2048 entries and data that is not empty,
    [to_mnemonic] fails in one way only: with the length error of the
    checksum, when a checksum is asked for and the bytes the checksum reads
    are not a multiple of four.  No index it computes is out of the range of
    the wordlist. *)
Theorem to_mnemonic_raises nfkd (self : Mnemonic) (data : bytes) (c : bool) :
  length (_wordlist self) = 2048 ->
  to_bytes data <> [] ->
  let d := to_bytes data in
  match to_mnemonic nfkd self data c with
  | Ok _ => c = false \/ length (to_bytes d) mod 4 = 0
  | Raise e =>
      c = true /\ length (to_bytes d) mod 4 <> 0
      /\ e = ValueError_data_length (length (to_bytes d))
  end.
Proof.
  intros Hwl _ d. destruct c.
  - destruct (checksum_cases d) as [[Hz [cs Hcs]]|[Hnz Hcs]].
    + rewrite (@to_mnemonic_checksum nfkd self data cs Hwl Hcs). now right.
    + unfold to_mnemonic. cbv zeta. fold d. rewrite Hcs. cbn [bind]. auto.
  - rewrite (@to_mnemonic_plain nfkd self data Hwl). now left.
Qed.

Lemma to_mnemonic_raises_witness :
  let d := to_bytes (unhex "000102") in
  match to_mnemonic nfkd_ascii mnemonic_a (unhex "000102") true with
  | Ok _ => true = false \/ length (to_bytes d) mod 4 = 0
  | Raise e =>
      true = true /\ length (to_bytes d) mod 4 <> 0
      /\ e = ValueError_data_length (length (to_bytes d))
  end.
Proof.
  apply (@to_mnemonic_raises nfkd_ascii mnemonic_a (unhex "000102") true).
  - reflexivity.
  - vm_compute. discriminate.
Defined.

(** X10.  For data whose first byte, as [to_bytes] reads it, is not zero,
    the words of a sentence [to_mnemonic] returns are the entries of the
    wordlist at indices below 2048 which, read as one number in base 2048,
    denote the number of the data bytes followed by the checksum bits, or
    the number of the data bytes alone when no checksum is added. *)
Theorem to_mnemonic_number nfkd (self : Mnemonic) (data : bytes) (c : bool) (s : string) :
  length (_wordlist self) = 2048 ->
  hd x00 (to_bytes data) <> x00 ->
  to_mnemonic nfkd self data c = Ok s ->
  let d := to_bytes data in
  exists wi cs,
    (if c then checksum d = Ok cs else cs = [])
    /\ s = nfkd (join_space (map (word_at (_wordlist self)) wi))
    /\ Forall (fun i => (i < 2048)%N) wi
    /\ digits_value 2048 wi
       = (entropy_value d * 2 ^ N.of_nat (length cs) + digits_value 2 cs)%N.
Proof.
  intros Hwl _ Hs d. destruct c.
  - destruct (checksum_cases d) as [[Hz [cs Hcs]]|[Hnz Hcs]].
    + rewrite (@to_mnemonic_checksum nfkd self data cs Hwl Hcs) in Hs.
      apply Ok_inj in Hs. subst s.
      eexists. exists cs. split; [exact Hcs|]. split; [reflexivity|]. split.
      * apply number_digits_lt. lia.
      * apply number_digits_value. lia.
    + unfold to_mnemonic in Hs. cbv zeta in Hs. fold d in Hs.
      rewrite Hcs in Hs. discriminate.
  - rewrite (@to_mnemonic_plain nfkd self data Hwl) in Hs.
    apply Ok_inj in Hs. subst s.
    eexists. exists []. split; [reflexivity|]. split; [reflexivity|]. split.
    + apply number_digits_lt. lia.
    + rewrite number_digits_value by lia. cbn [length N.of_nat digits_value fold_left].
      rewrite N.pow_0_r. fold d. lia.
Qed.

Lemma to_mnemonic_number_witness :
  let d := to_bytes (unhex "8802") in
  exists wi cs,
    cs = []
    /\ "aabb aaac"%string = nfkd_ascii (join_space (map (word_at (_wordlist mnemonic_a)) wi))
    /\ Forall (fun i => (i < 2048)%N) wi
    /\ digits_value 2048 wi
       = (entropy_value d * 2 ^ N.of_nat (length cs) + digits_value 2 cs)%N.
Proof.
  apply (@to_mnemonic_number nfkd_ascii mnemonic_a (unhex "8802") false "aabb aaac").
  - reflexivity.
  - vm_compute. discriminate.
  - vm_compute. reflexivity.
Defined.

(** ** The generated sentence *)



(** ** The entropy of a sentence *)

Lemma entropy_of_indices_raise (wi : list N) (c : bool) (e : exn) :
  entropy_of_indices wi c = Raise e ->
  c = true
  /\ ((exists n, n mod 4 <> 0 /\ e = ValueError_data_length n)
      \/ exists cs ent, e = Warning_invalid_checksum cs ent).
Proof.
  destruct c; [|unfold entropy_of_indices; discriminate].
  rewrite entropy_of_indices_eq. cbv zeta.
  match goal with |- context [checksum ?x] => set (ent := x) end.
  intros H. split; [reflexivity|].
  destruct (checksum_cases ent) as [[_ [cs Hcs]]|[Hnz Hcs]]; rewrite Hcs in H; cbn [bind] in H.
  - destruct (digits_eqb _ cs); [discriminate|].
    injection H as <-. right. eauto.
  - injection H as <-. left. eauto.
Qed.

Lemma to_entropy_raise_cases nfkd (dir : list (string * list string))
    (self : Mnemonic) (words : string) (c : bool) (e : exn) :
  to_entropy nfkd dir self words c = Raise e ->
  sanitize_mnemonic nfkd dir self words = Raise e
  \/ (exists s w,
        sanitize_mnemonic nfkd dir self words = Ok s
        /\ In w (split_space s) /\ ~ In w (_wordlist self)
        /\ e = ValueError_not_in_list w)
  \/ (c = true
      /\ ((exists n, n mod 4 <> 0 /\ e = ValueError_data_length n)
          \/ exists cs ent, e = Warning_invalid_checksum cs ent)).
Proof.
  unfold to_entropy, indices_of_words.
  destruct (sanitize_mnemonic nfkd dir self words) as [s|e'] eqn:Hs; cbn [bind].
  - destruct (mapM (py_index (_wordlist self)) (split_space s)) as [wi|e'] eqn:E;
      cbn [bind].
    + intros H. right. right. exact (entropy_of_indices_raise _ _ H).
    + intros H. injection H as <-. right. left.
      apply mapM_raise in E. destruct E as [w [Hw Hi]].
      apply py_index_raise in Hi. destruct Hi as [-> Hnot].
      exists s, w. auto.
  - intros H. injection H as <-. now left.
Qed.

(** X12.  Without a checksum, [to_entropy] fails in two ways only: as
    [sanitize_mnemonic] fails on the sentence, or with the ValueError of
    [index] for a word of the sanitized sentence that the wordlist of the
    instance lacks.  A sentence whose words are all found always decodes. *)
Theorem to_entropy_raises nfkd (dir : list (string * list string))
    (self : Mnemonic) (words : string) (e : exn) :
  to_entropy nfkd dir self words false = Raise e ->
  sanitize_mnemonic nfkd dir self words = Raise e
  \/ (exists s w,
        sanitize_mnemonic nfkd dir self words = Ok s
        /\ In w (split_space s) /\ ~ In w (_wordlist self)
        /\ e = ValueError_not_in_list w).
Proof.
  intros H. apply to_entropy_raise_cases in H.
  destruct H as [H|[H|[H _]]]; [now left|now right|discriminate].
Qed.

Lemma to_entropy_raises_witness :
  sanitize_mnemonic nfkd_ascii test_dir mnemonic_a "baab baac"
  = Raise (ValueError_not_in_list "baab")
  \/ (exists s w,
        sanitize_mnemonic nfkd_ascii test_dir mnemonic_a "baab baac" = Ok s
        /\ In w (split_space s) /\ ~ In w (_wordlist mnemonic_a)
        /\ ValueError_not_in_list "baab" = ValueError_not_in_list w).
Proof.
  apply (@to_entropy_raises nfkd_ascii test_dir mnemonic_a "baab baac").
  vm_compute. reflexivity.
Defined.

(** X13.  In the instance of the language detected for the normalized
    sentence, the lookup of the words never fails: [to_entropy] does not
    raise the ValueError of [index]. *)
Theorem to_entropy_own_language nfkd (dir : list (string * list string))
    (self : Mnemonic) (words lang : string) (c : bool) :
  init dir lang = Ok self ->
  detect_language nfkd dir (nfkd words) = Ok lang ->
  match to_entropy nfkd dir self words c with
  | Raise (ValueError_not_in_list _) => False
  | _ => True
  end.
Proof.
  intros Hinit Hdet.
  destruct (to_entropy nfkd dir self words c) as [ent|e] eqn:Hte; [exact I|].
  destruct e as [| |w| | | | | | | |]; try exact I.
  unfold init in Hinit.
  destruct (read_wordlist dir lang) as [wl|e] eqn:Hread; cbn [bind] in Hinit;
    [|discriminate].
  apply Ok_inj in Hinit. subst self.
  pose proof (@sanitize_mnemonic_find nfkd dir {| _wordlist := wl |} words lang wl
                Hdet Hread) as Hfind.
  destruct (to_entropy_raise_cases _ _ _ _ _ Hte)
    as [Hs|[[s [w' [Hs [Hw [Hnot _]]]]]|[_ [[n [_ He]]|[cs [ent He]]]]]];
    try discriminate.
  - rewrite Hfind in Hs. destruct (find _ _); discriminate.
  - rewrite Hfind in Hs.
    destruct (find (fun w => negb (py_in w wl)) (split_space (nfkd words))) as [x|] eqn:E;
      [discriminate|].
    apply Ok_inj in Hs. subst s. apply Hnot. cbn [_wordlist].
    pose proof (find_none _ _ E _ Hw) as Hf. cbn beta in Hf.
    apply py_in_spec. now destruct (py_in w' wl).
Qed.

Lemma to_entropy_own_language_witness :
  match to_entropy nfkd_ascii test_dir mnemonic_b "baab baac" false with
  | Raise (ValueError_not_in_list _) => False
  | _ => True
  end.
Proof.
  apply (@to_entropy_own_language nfkd_ascii test_dir mnemonic_b "baab baac" "lang_b" false).
  - vm_compute. reflexivity.
  - vm_compute. reflexivity.
Defined.

(** X14.  Without a checksum, the bytes [to_entropy] returns for a sentence
    whose words are found denote, in base 256, the number the word indices
    denote in base 2048. *)
Theorem to_entropy_number nfkd (dir : list (string * list string))
    (self : Mnemonic) (words : string) (wi : list N) :
  indices_of_words nfkd dir self words = Ok wi ->
  exists ent,
    to_entropy nfkd dir self words false = Ok ent
    /\ entropy_value ent = digits_value 2048 wi.
Proof.
  intros Hwi. unfold to_entropy. rewrite Hwi. cbn [bind].
  unfold entropy_of_indices. eexists. split; [reflexivity|].
  unfold entropy_value. rewrite change_base_no_pad.
  rewrite digits_bytes_digits by (apply number_digits_lt; lia).
  apply number_digits_value. lia.
Qed.

Lemma to_entropy_number_witness :
  exists ent,
    to_entropy nfkd_ascii test_dir mnemonic_a "aaab aaac" false = Ok ent
    /\ entropy_value ent = digits_value 2048 [1%N; 2%N].
Proof.
  apply (@to_entropy_number nfkd_ascii test_dir mnemonic_a "aaab aaac" [1%N; 2%N]).
  vm_compute. reflexivity.
Defined.

(** ** Words and their indices *)

Lemma py_index_from_first (w : string) (l : list string) (i0 i : N) :
  py_index_from w l i0 = Ok i ->
  (i0 <= i)%N
  /\ nth_error l (N.to_nat (i - i0)) = Some w
  /\ forall j, j < N.to_nat (i - i0) -> nth_error l j <> Some w.
Proof.
  revert i0. induction l as [|x l IH]; intros i0; cbn [py_index_from]; [discriminate|].
  destruct (String.eqb_spec x w) as [->|Hne].
  - intros H. apply Ok_inj in H. subst i. rewrite N.sub_diag. cbn.
    repeat split; [lia|]. intros j Hj. lia.
  - intros H. destruct (IH _ H) as [Hle [Hn Hfirst]].
    assert (E : N.to_nat (i - i0) = S (N.to_nat (i - (i0 + 1)))) by lia.
    rewrite E. cbn [nth_error]. repeat split; [lia|exact Hn|].
    intros [|j] Hj; cbn [nth_error].
    + intros Hx. apply Hne. now injection Hx.
    + apply Hfirst. lia.
Qed.

Lemma py_getitem_nat {A : Type} (l : list A) (j : nat) :
  py_getitem l (Z.of_nat j)
  = match nth_error l j with
    | Some x => Ok x
    | None => Raise IndexError
    end.
Proof.
  unfold py_getitem. cbv zeta.
  destruct (Z.ltb_spec (Z.of_nat j) 0) as [Hneg|_]; [lia|].
  rewrite Nat2Z.id.
  destruct (Z.leb_spec 0 (Z.of_nat j)) as [_|Hneg]; [|lia].
  destruct (Z.ltb_spec (Z.of_nat j) (Z.of_nat (length l))) as [Hlt|Hge]; cbn [andb].
  - reflexivity.
  - assert (Hnone : nth_error l j = None) by (apply nth_error_None; lia).
    now rewrite Hnone.
Qed.

(** X15.  The index [to_entropy] looks up for a word is one at which
    [word] returns that word, and the first such: at no smaller index does
    [word] return it. *)
Theorem word_of_index (self : Mnemonic) (w : string) (i : N) :
  py_index (_wordlist self) w = Ok i ->
  word self (Z.of_N i) = Ok w
  /\ forall j, (j < i)%N -> word self (Z.of_N j) <> Ok w.
Proof.
  unfold py_index, word. intros H.
  destruct (py_index_from_first _ _ _ H) as [_ [Hn Hfirst]].
  rewrite N.sub_0_r in Hn, Hfirst. split.
  - rewrite <- (N_nat_Z i), py_getitem_nat, Hn. reflexivity.
  - intros j Hj. rewrite <- (N_nat_Z j), py_getitem_nat.
    specialize (Hfirst (N.to_nat j) ltac:(lia)).
    destruct (nth_error (_wordlist self) (N.to_nat j)); [|discriminate].
    intros Hx. apply Hfirst. now injection Hx as ->.
Qed.

Lemma word_of_index_witness :
  word mnemonic_a (Z.of_N 2) = Ok "aaac"%string
  /\ forall j, (j < 2)%N -> word mnemonic_a (Z.of_N j) <> Ok "aaac"%string.
Proof.
  apply (@word_of_index mnemonic_a "aaac" 2%N).
  vm_compute. reflexivity.
Defined.

(** ** The round trip without a checksum *)

(** X16.  Without a checksum, data whose first byte, as [to_bytes] reads
    it, is not zero makes the round trip: the sentence [to_mnemonic] makes
    of it decodes, in an instance whose wordlist is in the directory, to the
    bytes [to_bytes] read. *)
Theorem roundtrip_no_checksum nfkd (dir : list (string * list string))
    (self : Mnemonic) (lang : string) (data : bytes) :
  wordlist_ok (_wordlist self) = true ->
  (forall ws, Forall (fun w => In w (_wordlist self)) ws ->
              nfkd (join_space ws) = join_space ws) ->
  In (lang, _wordlist self) dir -> NoDup (map fst dir) ->
  hd x00 (to_bytes data) <> x00 ->
  exists s,
    to_mnemonic nfkd self data false = Ok s
    /\ to_entropy nfkd dir self s false = Ok (to_bytes data).
Proof.
  intros Hok Hfix Hin Hnd Hfirst.
  destruct (@wordlist_ok_parts _ Hok) as [Hwl [Hdist Hsp]].
  set (d := to_bytes data) in *.
  destruct (@first_byte_digit d Hfirst) as [x [l [Hdl [Hx _]]]].
  assert (HV : (1 <= entropy_value d)%N).
  { unfold entropy_value. rewrite Hdl.
    pose proof (@digits_value_ge 256 ltac:(lia) x l Hx) as H.
    assert (256 ^ N.of_nat (length l) <> 0)%N by (apply N.pow_nonzero; lia).
    lia. }
  set (wi := number_digits 2048 (entropy_value d)).
  assert (Hval : digits_value 2048 wi = entropy_value d)
    by (apply number_digits_value; lia).
  assert (Hlt : Forall (fun i => (i < 2048)%N) wi) by (apply number_digits_lt; lia).
  set (ws := map (word_at (_wordlist self)) wi).
  assert (Hws : Forall (fun w => In w (_wordlist self)) ws).
  { apply Forall_forall. intros w Hw. apply in_map_iff in Hw.
    destruct Hw as [i [<- Hi]]. rewrite Forall_forall in Hlt.
    apply word_at_in; [assumption|]. now apply Hlt. }
  assert (Hne : ws <> []).
  { intros Hnil. apply map_eq_nil in Hnil. rewrite Hnil in Hval.
    cbn in Hval. lia. }
  assert (Hns : Forall (fun w => has_space w = false) ws).
  { rewrite Forall_forall in Hws, Hsp |- *. intros w Hw. apply Hsp, Hws, Hw. }
  assert (Hsplit : split_space (join_space ws) = ws) by (now apply split_join_space).
  assert (Hm : to_mnemonic nfkd self data false = Ok (join_space ws)).
  { rewrite (@to_mnemonic_plain nfkd self data Hwl). fold d. fold wi. fold ws.
    now rewrite (Hfix ws Hws). }
  assert (Hidx : indices_of_words nfkd dir self (join_space ws) = Ok wi).
  { unfold indices_of_words.
    rewrite (@sanitize_own_sentence nfkd dir self lang _ ws Hin Hnd Hne Hws Hns (Hfix ws Hws)).
    cbn [bind]. rewrite Hsplit. unfold ws.
    now rewrite mapM_index_ok by assumption. }
  exists (join_space ws). split; [exact Hm|].
  unfold to_entropy. rewrite Hidx. cbn [bind]. unfold entropy_of_indices.
  rewrite change_base_no_pad, Hval. unfold entropy_value. rewrite Hdl.
  rewrite number_digits_canonical;
    [|lia|exact Hx|rewrite <- Hdl; apply bytes_to_digits_lt].
  rewrite <- Hdl. now rewrite bytes_digits_bytes.
Qed.

Lemma roundtrip_no_checksum_witness :
  exists s,
    to_mnemonic nfkd_ascii mnemonic_a (unhex "8802") false = Ok s
    /\ to_entropy nfkd_ascii test_dir mnemonic_a s false = Ok (to_bytes (unhex "8802")).
Proof.
  apply (@roundtrip_no_checksum nfkd_ascii test_dir mnemonic_a "lang_a" (unhex "8802")).
  - exact wordlist_a_ok.
  - intros ws _. reflexivity.
  - left. reflexivity.
  - exact test_dir_no_dup.
  - vm_compute. discriminate.
Defined.

(** ** The length of a checked entropy *)

(** X19.  With the checksum included, [to_entropy] returns only entropies
    of a multiple of four bytes, those [checksum] accepts. *)
Theorem to_entropy_checked_length nfkd (dir : list (string * list string))
    (self : Mnemonic) (words : string) (ent : bytes) :
  to_entropy nfkd dir self words true = Ok ent ->
  length ent mod 4 = 0 /\ exists cs, checksum ent = Ok cs.
Proof.
  unfold to_entropy.
  destruct (indices_of_words nfkd dir self words) as [wi|e]; cbn [bind]; [|discriminate].
  rewrite entropy_of_indices_eq. cbv zeta.
  match goal with |- context [checksum ?x] => set (ent' := x) end.
  match goal with |- context [digits_eqb ?x] => generalize x end.
  intros checksum_ H.
  destruct (checksum_cases ent') as [[Hz [cs Hcs]]|[Hnz Hcs]]; rewrite Hcs in H;
    cbn [bind] in H; [|discriminate].
  destruct (digits_eqb checksum_ cs); [|discriminate].
  apply Ok_inj in H. subst ent. split; [|exists cs; exact Hcs].
  destruct (to_bytes_cases ent') as [[_ Hraw]|[_ Hhalf]].
  - now rewrite Hraw in Hz.
  - exact (@mod_4_double _ _ Hhalf Hz).
Qed.

Lemma to_entropy_checked_length_witness :
  length (unhex "7f7f7f7f") mod 4 = 0 /\ exists cs, checksum (unhex "7f7f7f7f") = Ok cs.
Proof.
  apply (@to_entropy_checked_length nfkd_ascii test_dir mnemonic_a "adpl ahnp agpo"
           (unhex "7f7f7f7f")).
  vm_compute. reflexivity.
Defined.
